(** * ABCU Advising Assistant: a shallow embedding of [final.cpp]

    The program loads course records from a comma separated file into a
    [std::map<std::string, Course>], and answers two queries over it: the
    sorted course list and the detail of one course.

    Modelling choices.
    - [std::string] is [string] (a sequence of 8-bit [ascii] characters);
      [std::isspace] and [std::toupper] are those of the "C" locale, which
      is the one the program runs in (it never calls [setlocale]).
    - [std::map<std::string, Course>] is [gmap string Course]. Where the code
      iterates over the map, the model iterates in ascending key order.
    - [std::vector] is [list]; [push_back] appends at the end.
    - [size_t] is a 64-bit unsigned integer, an [N] reduced modulo [2^64].
    - [std::cout] and [std::cerr] are lists of emitted lines; every output
      statement of the modelled functions ends in [std::endl].
    - The file system is a partial function from paths to file contents:
      [None] stands for a stream that could not be opened. *)

From Stdlib Require Import Ascii NArith DecimalString.
From Stdlib Require String.
From stdpp Require Import gmap strings list sorting fin_maps.

Local Open Scope char_scope.

(** ** Characters *)

(** The double quote, the comma and the line feed. *)
Definition dquote : ascii := "034".
Definition comma : ascii := ",".
Definition newline : ascii := "010".

(** [std::isspace] in the "C" locale: space, and the controls 9 to 13. *)
Definition isspace (c : ascii) : bool := Ascii.is_space c.

(** [std::toupper] in the "C" locale: the letters a..z lose 32. *)
Definition toupper (c : ascii) : ascii :=
  let n := N_of_ascii c in
  if ((97 <=? n) && (n <=? 122))%N then ascii_of_N (n - 32) else c.

Local Close Scope char_scope.

(** ** Strings *)

(** [s.push_back(c)]. *)
Definition push_back (s : string) (c : ascii) : string :=
  s +:+ String c "".

(** [s.empty()]. *)
Definition is_empty (s : string) : bool :=
  match s with "" => true | String _ _ => false end.

(** First loop of [trim]: the index of the first character that is not
    white space ([s.size()] when there is none). *)
Fixpoint trim_start (s : string) : nat :=
  match s with
  | "" => 0
  | String c r => if isspace c then S (trim_start r) else 0
  end.

(** Second loop of [trim]: [end] walks down from [en] while [end > start]
    and [s[end - 1]] is white space. *)
Fixpoint trim_end (s : string) (start en : nat) : nat :=
  match en with
  | 0 => 0
  | S e =>
      if bool_decide (start < en) then
        match String.get e s with
        | Some c => if isspace c then trim_end s start e else en
        | None => en
        end
      else en
  end.

(** [trim]: [s.substr(start, end - start)]. *)
Definition trim (s : string) : string :=
  let start := trim_start s in
  let en := trim_end s start (String.length s) in
  String.substring start (en - start) s.

(** [toUpper]: every character through [std::toupper]. *)
Fixpoint toUpper (s : string) : string :=
  match s with
  | "" => ""
  | String c r => String (toupper c) (toUpper r)
  end.

(** ** The record parser *)

(** The state of the loop of [parseCSVLine]: the fields pushed so far, the
    field being read, and whether the scan is inside a quoted region. *)
Record ScanState := mkScan {
  sc_fields : list string;
  sc_field : string;
  sc_inQuotes : bool
}.

Definition scan_init : ScanState := mkScan [] "" false.

(** The [for] loop of [parseCSVLine]. The lookahead [line[i + 1]] with the
    extra [++i] is the nested match on the rest of the line. *)
Fixpoint scan (line : string) (st : ScanState) : ScanState :=
  match line with
  | "" => st
  | String ch rest =>
      let '(mkScan fields field inQuotes) := st in
      if inQuotes then
        if Ascii.eqb ch dquote then
          match rest with
          | String ch' rest' =>
              if Ascii.eqb ch' dquote
              then scan rest' (mkScan fields (push_back field dquote) true)
              else scan rest (mkScan fields field false)
          | "" => scan rest (mkScan fields field false)
          end
        else scan rest (mkScan fields (push_back field ch) true)
      else
        if Ascii.eqb ch dquote then scan rest (mkScan fields field true)
        else if Ascii.eqb ch comma then scan rest (mkScan (fields ++ [field]) "" false)
        else scan rest (mkScan fields (push_back field ch) false)
  end.

(** [parseCSVLine]: scan, push the last field, trim every field. *)
Definition parseCSVLine (line : string) : list string :=
  let st := scan line scan_init in
  trim <$> (sc_fields st ++ [sc_field st]).

(** ** The catalog builder *)

Record Course := mkCourse {
  id : string;
  title : string;
  prereqs : list string
}.

(** A value-initialised [Course], as [courses[id]] creates it. *)
Definition Course_default : Course := mkCourse "" "" [].

(** [placeholder] of the prerequisite loop. *)
Definition placeholder (prereqId : string) : Course := mkCourse prereqId "" [].

Definition set_id (v : string) (c : Course) : Course :=
  mkCourse v (title c) (prereqs c).
Definition set_title (v : string) (c : Course) : Course :=
  mkCourse (id c) v (prereqs c).
Definition push_prereq (v : string) (c : Course) : Course :=
  mkCourse (id c) (title c) (prereqs c ++ [v]).

(** [size_t] arithmetic. *)
Definition size_t_modulus : N := 2 ^ 64.
Definition size_t_incr (n : N) : N := ((n + 1) mod size_t_modulus)%N.

(** [std::to_string] on an unsigned integer: its decimal digits. *)
Definition to_string (n : N) : string :=
  NilEmpty.string_of_uint (N.to_uint n).

(** [courses[k]] used for its side effect: the entry is created,
    value-initialised, when the key is absent. *)
Definition subscript (k : string) (courses : gmap string Course) : gmap string Course :=
  match courses !! k with
  | Some _ => courses
  | None => <[k := Course_default]> courses
  end.

(** The prerequisite loop over [fields[2..]]. [course] is a reference to the
    entry of key [id], so [course.prereqs.push_back] updates the map in
    place, and stays valid across the insertion of placeholders. *)
Fixpoint load_prereqs (cid : string) (fields : list string)
    (courses : gmap string Course) : gmap string Course :=
  match fields with
  | [] => courses
  | f :: rest =>
      let prereqId := toUpper (trim f) in
      if is_empty prereqId then load_prereqs cid rest courses
      else
        let courses := alter (push_prereq prereqId) cid courses in
        let courses :=
          match courses !! prereqId with
          | None => <[prereqId := placeholder prereqId]> courses
          | Some _ => courses
          end in
        load_prereqs cid rest courses
  end.

(** The loop body from [fields.size() < 2] on, for the parsed fields of line
    [lineNum]. *)
Definition load_fields (lineNum : N) (fields : list string)
    (courses : gmap string Course) (warnings : list string)
    : gmap string Course * list string :=
  match fields with
  | f0 :: f1 :: rest =>
      let rawId := trim f0 in
      let cid := toUpper rawId in
      let ttl := f1 in
      if is_empty cid then
        (courses,
         warnings ++ ["Line " +:+ to_string lineNum +:+ " skipped: empty course ID"])
      else
        let warnings :=
          if is_empty ttl
          then warnings ++ ["Line " +:+ to_string lineNum +:+ " has empty title for course " +:+ cid]
          else warnings in
        let courses := subscript cid courses in
        let courses := alter (set_id cid) cid courses in
        let courses :=
          if is_empty ttl then courses else alter (set_title ttl) cid courses in
        (load_prereqs cid rest courses, warnings)
  | _ =>
      (courses,
       warnings ++ ["Line " +:+ to_string lineNum +:+ " skipped: fewer than 2 fields"])
  end.

(** The loop body after [++lineNum]. *)
Definition load_line (lineNum : N) (line : string)
    (courses : gmap string Course) (warnings : list string)
    : gmap string Course * list string :=
  if is_empty (trim line) then (courses, warnings)
  else load_fields lineNum (parseCSVLine line) courses warnings.

(** The [while (std::getline(in, line))] loop over the lines of the stream;
    [lineNum] is the counter before the line is read. *)
Fixpoint load_loop (lines : list string) (lineNum : N)
    (courses : gmap string Course) (warnings : list string)
    : gmap string Course * list string :=
  match lines with
  | [] => (courses, warnings)
  | line :: rest =>
      let lineNum := size_t_incr lineNum in
      let '(courses, warnings) := load_line lineNum line courses warnings in
      load_loop rest lineNum courses warnings
  end.

(** Successive [std::getline] calls on a stream holding [content]: a line
    ends at a line feed, which is dropped; the characters after the last line
    feed form a last line when there are any. [line] holds the characters
    extracted so far and [extracted] tells whether there are any. *)
Fixpoint getlines_from (content line : string) (extracted : bool) : list string :=
  match content with
  | "" => if extracted then [line] else []
  | String c rest =>
      if Ascii.eqb c newline then line :: getlines_from rest "" false
      else getlines_from rest (push_back line c) true
  end.

Definition getlines (content : string) : list string :=
  getlines_from content "" false.

(** The files that can be opened, with their contents. *)
Definition FileSystem := string → option string.

(** What a call leaves behind: the returned flag, the two reference
    parameters and the lines sent to [std::cerr]. *)
Record LoadResult := mkLoad {
  ld_ok : bool;
  ld_courses : gmap string Course;
  ld_warnings : list string;
  ld_cerr : list string
}.

Definition loadCoursesFromFile (fs : FileSystem) (filename : string)
    (courses : gmap string Course) (warnings : list string) : LoadResult :=
  match fs filename with
  | None =>
      mkLoad false courses warnings ["Error: Could not open file: " +:+ filename]
  | Some content =>
      let courses : gmap string Course := ∅ in
      let warnings : list string := [] in
      let '(courses, warnings) := load_loop (getlines content) 0%N courses warnings in
      mkLoad true courses warnings []
  end.

(** ** The query layer *)

(** [operator<=] on the keys of two map entries. *)
Definition key_le (kv1 kv2 : string * Course) : Prop := String.le kv1.1 kv2.1.

#[global] Instance key_le_dec : RelDecision key_le.
Proof. intros kv1 kv2. unfold key_le. apply _. Defined.

(** The entries of a [std::map] in iteration order: ascending keys. *)
Definition in_key_order (courses : gmap string Course) : list (string * Course) :=
  merge_sort key_le (map_to_list courses).

(** First loop of [printSortedCourseList]: the [id] field of every entry
    with a title is pushed on [ids]. *)
Fixpoint collect_ids (entries : list (string * Course)) (ids : list string) : list string :=
  match entries with
  | [] => ids
  | (_, c) :: rest =>
      collect_ids rest (if is_empty (title c) then ids else ids ++ [id c])
  end.

(** [std::sort] on strings: ascending for [operator<], which compares byte
    by byte, a proper prefix first. *)
Definition std_sort (ids : list string) : list string :=
  merge_sort String.le ids.

(** Second loop of [printSortedCourseList]. [courses.at(id)] throws
    [std::out_of_range] on a missing key: the result is [None]. *)
Fixpoint print_ids (courses : gmap string Course) (ids : list string)
    (cout : list string) : option (list string) :=
  match ids with
  | [] => Some cout
  | i :: rest =>
      match courses !! i with
      | None => None
      | Some c => print_ids courses rest (cout ++ [i +:+ ", " +:+ title c])
      end
  end.

(** [printSortedCourseList]: the lines sent to [std::cout]. *)
Definition printSortedCourseList (courses : gmap string Course) : option (list string) :=
  let ids := collect_ids (in_key_order courses) [] in
  let ids := std_sort ids in
  let cout := [""; "Computer Science Course List"; "----------------------------"] in
  cout ← print_ids courses ids cout;
  Some (cout ++ [""]).

(** The loop of [printCourseInfo] over [c.prereqs]. *)
Fixpoint print_prereqs (courses : gmap string Course) (pids : list string)
    (cout : list string) : list string :=
  match pids with
  | [] => cout
  | pid :: rest =>
      let line :=
        match courses !! pid with
        | Some p =>
            if is_empty (title p)
            then "  - " +:+ pid +:+ ": Title unknown"
            else "  - " +:+ id p +:+ ": " +:+ title p
        | None => "  - " +:+ pid +:+ ": Title unknown"
        end in
      print_prereqs courses rest (cout ++ [line])
  end.

(** [printCourseInfo]: the lines sent to [std::cout]. *)
Definition printCourseInfo (courses : gmap string Course) (queryRaw : string) : list string :=
  let query := toUpper (trim queryRaw) in
  if is_empty query then ["Error: empty course ID."]
  else
    match courses !! query with
    | None => ["Course not found: " +:+ query]
    | Some c =>
        if is_empty (title c) then ["Course not found: " +:+ query]
        else
          let cout := [""; id c +:+ ": " +:+ title c] in
          let cout :=
            match prereqs c with
            | [] => cout ++ ["Prerequisites: None"]
            | _ => print_prereqs courses (prereqs c) (cout ++ ["Prerequisites:"])
            end in
          cout ++ [""]
    end.

(** ** The menu options of [main] *)

(** The two variables of [main] that live across iterations. *)
Record AppState := mkApp {
  courses : gmap string Course;
  dataLoaded : bool
}.

Definition app_init : AppState := mkApp ∅ false.

(** What one menu option leaves behind. *)
Record Step := mkStep {
  st_app : AppState;
  st_cout : list string;
  st_cerr : list string
}.

(** Option 1, from the file name line read from [std::cin]. *)
Definition menu_load (fs : FileSystem) (filenameLine : string) (app : AppState) : Step :=
  let filename := trim filenameLine in
  if is_empty filename then
    mkStep app ["Error: file name cannot be empty."] []
  else
    let r := loadCoursesFromFile fs filename (courses app) [] in
    if ld_ok r then
      let cout := ["Data loaded successfully from " +:+ filename] in
      let cout :=
        match ld_warnings r with
        | [] => cout
        | ws => cout ++ ["Note: Some lines were skipped or had issues:"]
                     ++ ((λ w, "  - " +:+ w) <$> ws)
        end in
      mkStep (mkApp (ld_courses r) true) cout (ld_cerr r)
    else
      mkStep (mkApp (ld_courses r) false) [] (ld_cerr r).

(** Option 2; [None] when [printSortedCourseList] throws. *)
Definition menu_list (app : AppState) : option Step :=
  if dataLoaded app then
    cout ← printSortedCourseList (courses app);
    Some (mkStep app cout [])
  else Some (mkStep app ["Please load data first using option 1."] []).

(** Option 3, from the query line read from [std::cin]. *)
Definition menu_print (query : string) (app : AppState) : Step :=
  if dataLoaded app then mkStep app (printCourseInfo (courses app) query) []
  else mkStep app ["Please load data first using option 1."] [].

(** ** Notions used to state the properties *)

(** A string without its leading white space, and without its trailing
    white space. *)
Fixpoint lstrip (s : string) : string :=
  match s with
  | "" => ""
  | String c r => if isspace c then lstrip r else s
  end.

Fixpoint rstrip (s : string) : string :=
  match s with
  | "" => ""
  | String c r =>
      let r' := rstrip r in
      if is_empty r' && isspace c then "" else String c r'
  end.

(** Every character of the string satisfies [P]. *)
Fixpoint all_chars (P : ascii → bool) (s : string) : bool :=
  match s with
  | "" => true
  | String c r => P c && all_chars P r
  end.

Definition is_lower (c : ascii) : bool :=
  let n := N_of_ascii c in ((97 <=? n) && (n <=? 122))%N.

(** The scan of the whole string ends outside a quoted region. *)
Definition closed (s : string) : bool := negb (sc_inQuotes (scan s scan_init)).

(** A field written between double quotes, its own quotes doubled. *)
Fixpoint escape (s : string) : string :=
  match s with
  | "" => ""
  | String c r =>
      if Ascii.eqb c dquote then String dquote (String dquote (escape r))
      else String c (escape r)
  end.

Definition enquote (s : string) : string :=
  String dquote (escape s +:+ String dquote "").

(** The catalog invariants after a load. *)
Definition keys_are_ids (m : gmap string Course) : Prop :=
  ∀ k c, m !! k = Some c → id c = k.

Definition keys_upper (m : gmap string Course) : Prop :=
  ∀ k c, m !! k = Some c → toUpper k = k ∧ all_chars (λ ch, negb (is_lower ch)) k = true.

Definition prereqs_closed (m : gmap string Course) : Prop :=
  ∀ k c p, m !! k = Some c → p ∈ prereqs c → is_Some (m !! p).

(** A record written with every field between double quotes. *)
Fixpoint write_line (fields : list string) : string :=
  match fields with
  | [] => ""
  | [f] => enquote f
  | f :: rest => enquote f +:+ String comma (write_line rest)
  end.

(** Characters that are content outside a quoted region. *)
Definition plain_char (c : ascii) : bool :=
  negb (Ascii.eqb c dquote) && negb (Ascii.eqb c comma).

(** The two lines of the parsing examples: a field holding a comma between
    quotes, and a field holding a doubled quote between quotes. *)
Definition line_quoted_comma : string :=
  "a," +:+ String dquote ("b,c" +:+ String dquote ",d").
Definition line_doubled_quote : string :=
  "a," +:+ String dquote ("b" +:+ String dquote (String dquote ("c" +:+ String dquote ",d"))).

(** The prerequisite identifiers a list of fields contributes: each field
    trimmed and uppercased, the empty ones left out. *)
Fixpoint prereq_ids (fields : list string) : list string :=
  match fields with
  | [] => []
  | f :: rest =>
      let p := toUpper (trim f) in
      if is_empty p then prereq_ids rest else p :: prereq_ids rest
  end.

(** A scan state with fields [p] pushed before its own. *)
Definition prepend_fields (p : list string) (st : ScanState) : ScanState :=
  mkScan (p ++ sc_fields st) (sc_field st) (sc_inQuotes st).

(** The record that a line with identifier [cid], title [ttl] and
    prerequisite fields [rest] leaves under [cid]: the entry that was there,
    or a fresh one, with the title replaced when [ttl] is not empty and the
    prerequisites of the line appended. *)
Definition merged (m : gmap string Course) (cid ttl : string) (rest : list string) : Course :=
  let old := default Course_default (m !! cid) in
  mkCourse cid (if is_empty ttl then title old else ttl) (prereqs old ++ prereq_ids rest).

(** The menu option 1 taken several times in a row, each time with the
    files of the moment and the file name typed. *)
Fixpoint run_loads (loads : list (FileSystem * string)) (app : AppState) : AppState :=
  match loads with
  | [] => app
  | (fs, filenameLine) :: rest => run_loads rest (st_app (menu_load fs filenameLine app))
  end.

(** A sample file: forward references, a line without identifier, a line of
    one field, a blank line, a line without title and a trailing comma. *)
Definition nl : string := String newline "".

Definition sample_csv : string :=
  "csci100,Intro" +:+ nl +:+
  "csci200, Data ,csci100, math201" +:+ nl +:+
  ",oops" +:+ nl +:+
  "justone" +:+ nl +:+
  nl +:+
  "CSCI300,,csci200,csci200," +:+ nl +:+
  "csci400,Last,zzz,csci100".

Definition sample_fs : FileSystem :=
  λ path, if String.eqb path "courses.csv" then Some sample_csv else None.

Definition sample_catalog : gmap string Course :=
  ld_courses (loadCoursesFromFile sample_fs "courses.csv" ∅ []).

(** The line that [printCourseInfo] prints for one prerequisite. *)
Definition prereq_line (courses : gmap string Course) (pid : string) : string :=
  match courses !! pid with
  | Some p =>
      if is_empty (title p)
      then "  - " +:+ pid +:+ ": Title unknown"
      else "  - " +:+ id p +:+ ": " +:+ title p
  | None => "  - " +:+ pid +:+ ": Title unknown"
  end.

(** A catalog with a course that lists a prerequisite twice, and one whose
    only entry is a placeholder. *)
Definition small_catalog : gmap string Course :=
  <["CSCI300" := mkCourse "CSCI300" "Foo" ["CSCI101"; "MATH201"; "CSCI101"]]>
    (<["CSCI101" := mkCourse "CSCI101" "Bar" []]>
       (<["MATH201" := placeholder "MATH201"]> ∅)).

(** The entries that [printSortedCourseList] keeps: those with a title. *)
Definition with_title (kv : string * Course) : Prop := is_empty (title kv.2) = false.

#[global] Instance with_title_dec (kv : string * Course) : Decision (with_title kv).
Proof. unfold with_title. apply _. Defined.

(** The catalog of the listing example, built in the order of the example. *)
Definition listing_catalog : gmap string Course :=
  <["CSCI101" := mkCourse "CSCI101" "Bar" []]>
    (<["CSCI300" := mkCourse "CSCI300" "Foo" []]> ∅).

(** ** The input loop of [main] *)

Definition cr : ascii := "013"%char.

(** [std::isdigit] in the "C" locale. *)
Definition isdigit (c : ascii) : bool :=
  let n := N_of_ascii c in ((48 <=? n) && (n <=? 57))%N.

(** [s.back()] of a string that is not empty, and [s.pop_back()]. *)
Fixpoint back (s : string) : option ascii :=
  match s with
  | "" => None
  | String c "" => Some c
  | String _ r => back r
  end.

Fixpoint pop_back (s : string) : string :=
  match s with
  | "" => ""
  | String _ "" => ""
  | String c r => String c (pop_back r)
  end.

(** The second half of [safeGetline]: the line without its last character
    when that is a carriage return. *)
Definition strip_cr (s : string) : string :=
  match back s with
  | Some c => if Ascii.eqb c cr then pop_back s else s
  | None => s
  end.

(** [safeGetline] on the lines that [std::getline] still has to deliver
    from [std::cin]: [None] at the end of the input, else the next line,
    stripped, and the lines that remain. *)
Definition safeGetline (input : list string) : option (string * list string) :=
  match input with
  | [] => None
  | s :: rest => Some (strip_cr s, rest)
  end.

(** The value that [std::stoi] reads in a string of decimal digits, the
    only strings [main] passes to it. *)
Fixpoint digits_value (s : string) (acc : N) : N :=
  match s with
  | "" => acc
  | String c r => digits_value r (acc * 10 + (N_of_ascii c - 48))%N
  end.

Definition INT_MAX : N := 2147483647.

(** [std::stoi] on a string of decimal digits, with a 32-bit [int]: [None]
    stands for the [std::out_of_range] it throws on a value above
    [INT_MAX]. *)
Definition stoi (s : string) : option N :=
  let v := digits_value s 0 in
  if (v <=? INT_MAX)%N then Some v else None.

(** The lines that [showMenu] prints. *)
Definition showMenu : list string :=
  [""; "Welcome to the ABCU Computer Science Advising Assistant";
   "--------------------------------------------------------";
   "  1. Load Data Structure"; "  2. Print Course List"; "  3. Print Course";
   "  9. Exit"; ""; "What would you like to do? "].

(** How [main] ends: it returns 0, or an exception that nothing catches
    ends the program. *)
Inductive Outcome := Returned | Uncaught.

(** A run of [main]: the last state, what went to the two streams, and how
    it ended. Every output statement ends in [std::endl], which flushes, so
    the lines printed before an exception are part of the output; those of
    a listing that throws are not modelled. *)
Record Run := mkRun {
  run_app : AppState;
  run_cout : list string;
  run_cerr : list string;
  run_outcome : Outcome
}.

Definition input_closed (app : AppState) (cout cerr : list string) : Run :=
  mkRun app (cout ++ [""; "Input closed. Exiting."]) cerr Returned.

(** One round of the loop of [main] from the point where the choice line
    has been read, [continue] being the rest of the loop on the input that
    remains. *)
Definition main_round (fs : FileSystem) (choiceLine : string) (input : list string)
    (app : AppState) (cout cerr : list string)
    (continue : list string → AppState → list string → list string → Run) : Run :=
  let choiceLine := trim choiceLine in
  if is_empty choiceLine then
    continue input app (cout ++ ["Please enter a menu option (1, 2, 3, or 9)."]) cerr
  else if negb (all_chars isdigit choiceLine) then
    continue input app (cout ++ ["Invalid option. Please enter 1, 2, 3, or 9."]) cerr
  else
    match stoi choiceLine with
    | None => mkRun app cout cerr Uncaught
    | Some choice =>
        if (choice =? 1)%N then
          let cout := cout ++ ["Enter the file name to load: "] in
          match safeGetline input with
          | None => input_closed app cout cerr
          | Some (filename, input) =>
              let step := menu_load fs filename app in
              continue input (st_app step) (cout ++ st_cout step) (cerr ++ st_cerr step)
          end
        else if (choice =? 2)%N then
          match menu_list app with
          | None => mkRun app cout cerr Uncaught
          | Some step => continue input app (cout ++ st_cout step) cerr
          end
        else if (choice =? 3)%N then
          if dataLoaded app then
            let cout := cout ++ ["Enter a course ID (e.g., CSCI300): "] in
            match safeGetline input with
            | None => input_closed app cout cerr
            | Some (query, input) =>
                continue input app (cout ++ printCourseInfo (courses app) query) cerr
            end
          else
            continue input app (cout ++ ["Please load data first using option 1."]) cerr
        else if (choice =? 9)%N then
          mkRun app
            (cout ++ ["Thank you for using the ABCU CS Advising Assistant. Goodbye!"])
            cerr Returned
        else
          continue input app (cout ++ ["Invalid option. Please enter 1, 2, 3, or 9."]) cerr
    end.

(** The [while (true)] loop of [main], on the lines of [std::cin] and the
    files of the session. A round reads one line or two, so the loop is
    bounded by the number of lines left: [fuel] is that number plus one. *)
Fixpoint main_rounds (fuel : nat) (fs : FileSystem) (input : list string)
    (app : AppState) (cout cerr : list string) : Run :=
  match fuel with
  | 0 => mkRun app cout cerr Returned
  | S fuel =>
      let cout := cout ++ showMenu in
      match safeGetline input with
      | None => input_closed app cout cerr
      | Some (choiceLine, input) =>
          main_round fs choiceLine input app cout cerr (main_rounds fuel fs)
      end
  end.

Definition main_loop (fs : FileSystem) (input : list string) (app : AppState)
    (cout cerr : list string) : Run :=
  main_rounds (S (length input)) fs input app cout cerr.

(** [main], on the content of [std::cin]. *)
Definition main (fs : FileSystem) (stdin : string) : Run :=
  main_loop fs (getlines stdin) app_init [] [].

(** ** Notions used to state further properties *)

(** The number of occurrences of a character in a string. *)
Fixpoint count_char (c : ascii) (s : string) : nat :=
  match s with
  | "" => 0
  | String d r => (if Ascii.eqb d c then 1 else 0) + count_char c r
  end.

Definition not_char (c d : ascii) : bool := negb (Ascii.eqb d c).

(** Lines put end to end, each followed by a line feed. *)
Fixpoint unlines (lines : list string) : string :=
  match lines with
  | [] => ""
  | l :: rest => l +:+ String newline (unlines rest)
  end.

(** A text with a carriage return before every line feed. *)
Fixpoint to_crlf (content : string) : string :=
  match content with
  | "" => ""
  | String c r =>
      if Ascii.eqb c newline then String cr (String newline (to_crlf r))
      else String c (to_crlf r)
  end.

(** What a line of the file defines, when the loop keeps it: the course
    identifier, the title field and the prerequisite fields. *)
Definition line_record (line : string) : option (string * string * list string) :=
  if is_empty (trim line) then None
  else
    match parseCSVLine line with
    | f0 :: f1 :: rest =>
        if is_empty (toUpper (trim f0)) then None
        else Some (toUpper (trim f0), f1, rest)
    | _ => None
    end.

(** The identifiers a line brings into the catalog. *)
Definition line_keys (line : string) : list string :=
  match line_record line with
  | Some (cid, _, rest) => cid :: prereq_ids rest
  | None => []
  end.

(** A line that raises no warning: blank, or a record with a title. *)
Definition quiet_line (line : string) : Prop :=
  trim line = "" ∨ ∃ cid ttl rest, line_record line = Some (cid, ttl, rest) ∧ ttl ≠ "".

(** A line with white space added at its end. *)
Definition padded (l' l : string) : Prop :=
  ∃ ws, all_chars isspace ws = true ∧ l' = l +:+ ws.

(** A course with a title under key [k]. *)
Definition titled (m : gmap string Course) (k : string) : Prop :=
  ∃ c, m !! k = Some c ∧ title c ≠ "".

(** Keys are not empty and are their own normal form. *)
Definition keys_normal (m : gmap string Course) : Prop :=
  ∀ k, is_Some (m !! k) → k ≠ "" ∧ toUpper (trim k) = k.

(** A line that [std::stoi] accepts when [main] passes it: when its trimmed
    form is made of digits, the value fits an [int]. *)
Definition choice_in_range (l : string) : Prop :=
  all_chars isdigit (trim l) = true → is_Some (stoi (trim l)).

(** What a line contributes to the course [cid]: its prerequisite
    identifiers when it is a kept line for [cid], and its title when it is
    one with a title that is not empty. *)
Definition line_prereqs (cid line : string) : list string :=
  match line_record line with
  | Some (c, _, rest) => if decide (c = cid) then prereq_ids rest else []
  | None => []
  end.

Definition line_title (cid line : string) : option string :=
  match line_record line with
  | Some (c, ttl, _) => if decide (c = cid) then (if is_empty ttl then None else Some ttl) else None
  | None => None
  end.

(** A line that is not the choice 1 of the menu. *)
Definition not_load_choice (l : string) : Prop :=
  all_chars isdigit (trim l) = true → stoi (trim l) ≠ Some 1%N.

(** ** Lines as they are written *)

(** A field is written as a sequence of stretches: text without quote or
    comma, written as it is, and quoted regions, written between two double
    quotes with the quotes they hold doubled. *)
Inductive piece := Plain (s : string) | Quoted (s : string).

Definition render_piece (p : piece) : string :=
  match p with
  | Plain s => s
  | Quoted s => enquote s
  end.

Definition piece_content (p : piece) : string :=
  match p with
  | Plain s => s
  | Quoted s => s
  end.

Fixpoint render_field (ps : list piece) : string :=
  match ps with
  | [] => ""
  | p :: rest => render_piece p +:+ render_field rest
  end.

Fixpoint field_content (ps : list piece) : string :=
  match ps with
  | [] => ""
  | p :: rest => piece_content p +:+ field_content rest
  end.

(** The first character is a double quote. *)
Definition starts_quote (s : string) : bool :=
  match s with
  | "" => false
  | String c _ => Ascii.eqb c dquote
  end.

(** A field is well written when its plain stretches are not empty and hold
    neither quote nor comma, and no quoted region follows another one at
    once: a closing quote followed by an opening one is a doubled quote. *)
Fixpoint wf_field (ps : list piece) : bool :=
  match ps with
  | [] => true
  | Plain s :: rest => negb (is_empty s) && all_chars plain_char s && wf_field rest
  | Quoted _ :: rest =>
      match rest with
      | Quoted _ :: _ => false
      | _ => wf_field rest
      end
  end.

(** The field ends with a quoted region. *)
Fixpoint ends_quoted (ps : list piece) : bool :=
  match ps with
  | [] => false
  | [Plain _] => false
  | [Quoted _] => true
  | _ :: rest => ends_quoted rest
  end.

(** A line as it is written: its fields, separated by commas, and at its
    end the text of a quoted region that is never closed, when there is
    one. *)
Record written_line := mkWritten {
  wl_fields : list (list piece);
  wl_open : option string
}.

Fixpoint render_fields (fields : list (list piece)) : string :=
  match fields with
  | [] => ""
  | [f] => render_field f
  | f :: rest => render_field f +:+ String comma (render_fields rest)
  end.

Definition render_line (l : written_line) : string :=
  render_fields (wl_fields l)
  +:+ match wl_open l with
      | Some q => String dquote (escape q)
      | None => ""
      end.

(** The text [q] added to the last string of a list. *)
Fixpoint append_to_last (q : string) (l : list string) : list string :=
  match l with
  | [] => []
  | [x] => [x +:+ q]
  | x :: rest => x :: append_to_last q rest
  end.

(** What the fields of a written line hold: the text of their stretches,
    and for the last field the text of the region left open as well. *)
Definition line_contents (l : written_line) : list string :=
  match wl_open l with
  | None => field_content <$> wl_fields l
  | Some q => append_to_last q (field_content <$> wl_fields l)
  end.

(** A line is well written when it has a field at least, its fields are well
    written, and a region left open does not follow a quoted region at
    once. *)
Definition wf_line (l : written_line) : Prop :=
  wl_fields l ≠ []
  ∧ Forall (λ f, wf_field f = true) (wl_fields l)
  ∧ (is_Some (wl_open l) → ∀ f, last (wl_fields l) = Some f → ends_quoted f = false).

(** A stretch put in front of the first field of a line. *)
Definition prepend_piece (p : piece) (l : written_line) : written_line :=
  match wl_fields l with
  | [] => mkWritten [[p]] (wl_open l)
  | f0 :: fields => mkWritten ((p :: f0) :: fields) (wl_open l)
  end.

(** The line of a course whose title is between quotes after a space. *)
Definition line_quoted_title : string :=
  "CSCI200, " +:+ String dquote ("Data, Structures" +:+ String dquote ", CSCI100").

(** * Properties *)

(** ** Characters and strings *)

Lemma str_app_cons (c : ascii) (s t : string) : String c s +:+ t = String c (s +:+ t).
Proof. reflexivity. Qed.

Lemma str_app_nil_l (s : string) : "" +:+ s = s.
Proof. reflexivity. Qed.

Lemma str_app_nil_r (s : string) : s +:+ "" = s.
Proof. induction s as [|c s IH]; [done|]. by rewrite str_app_cons, IH. Qed.

Lemma str_app_assoc (s t u : string) : (s +:+ t) +:+ u = s +:+ (t +:+ u).
Proof. induction s as [|c s IH]; [done|]. by rewrite !str_app_cons, IH. Qed.

Lemma push_back_app (s t : string) (c : ascii) :
  push_back s c +:+ t = s +:+ String c t.
Proof. unfold push_back. by rewrite str_app_assoc. Qed.

Lemma is_empty_true (s : string) : is_empty s = true ↔ s = "".
Proof. by destruct s. Qed.

Lemma is_empty_false (s : string) : is_empty s = false ↔ s ≠ "".
Proof. by destruct s. Qed.

Lemma is_empty_toUpper (s : string) : is_empty (toUpper s) = is_empty s.
Proof. by destruct s. Qed.

Lemma toupper_not_lower (c : ascii) : is_lower (toupper c) = false.
Proof. by destruct c as [[] [] [] [] [] [] [] []]. Qed.

Lemma toupper_idemp (c : ascii) : toupper (toupper c) = toupper c.
Proof. by destruct c as [[] [] [] [] [] [] [] []]. Qed.

Lemma toUpper_idemp (s : string) : toUpper (toUpper s) = toUpper s.
Proof. induction s as [|c s IH]; [done|]. simpl. by rewrite toupper_idemp, IH. Qed.

Lemma toUpper_no_lower (s : string) :
  all_chars (λ ch, negb (is_lower ch)) (toUpper s) = true.
Proof.
  induction s as [|c s IH]; [done|]. simpl.
  by rewrite toupper_not_lower, IH.
Qed.

(** ** [trim] removes the white space at both ends *)

Lemma length_lstrip (s : string) :
  String.length s = trim_start s + String.length (lstrip s).
Proof.
  induction s as [|c s IH]; [done|]. simpl.
  destruct (isspace c); simpl; by f_equal.
Qed.

Lemma get_lstrip (s : string) (i : nat) :
  String.get (trim_start s + i) s = String.get i (lstrip s).
Proof.
  induction s as [|c s IH]; [done|]. simpl.
  destruct (isspace c); simpl; done.
Qed.

Lemma substring_lstrip (s : string) (n : nat) :
  String.substring (trim_start s) n s = String.substring 0 n (lstrip s).
Proof.
  induction s as [|c s IH]; [done|]. simpl.
  destruct (isspace c); simpl; done.
Qed.

Lemma trim_end_lstrip (s : string) (m : nat) :
  trim_end s (trim_start s) (trim_start s + m)
  = trim_start s + trim_end (lstrip s) 0 m.
Proof.
  induction m as [|m IH].
  - rewrite Nat.add_0_r. destruct (trim_start s) as [|e]; [done|].
    simpl. rewrite bool_decide_eq_false_2 by lia. lia.
  - rewrite Nat.add_succ_r. simpl.
    rewrite bool_decide_eq_true_2 by lia. rewrite get_lstrip.
    destruct (String.get m (lstrip s)) as [c|]; [|done].
    destruct (isspace c); [apply IH|done].
Qed.

Lemma trim_end_cons (c : ascii) (r : string) (n : nat) :
  trim_end (String c r) 0 (S n)
  = match trim_end r 0 n with
    | 0 => if isspace c then 0 else 1
    | S k => S (S k)
    end.
Proof.
  induction n as [|n IH].
  - simpl. by destruct (isspace c).
  - change (trim_end (String c r) 0 (S (S n)))
      with (match String.get n r with
            | Some c' => if isspace c' then trim_end (String c r) 0 (S n) else S (S n)
            | None => S (S n)
            end).
    simpl (trim_end r 0 (S n)).
    destruct (String.get n r) as [c'|]; [|done].
    destruct (isspace c'); [apply IH|done].
Qed.

Lemma substring_rstrip (t : string) :
  String.substring 0 (trim_end t 0 (String.length t)) t = rstrip t.
Proof.
  induction t as [|c r IH]; [done|].
  cbn [String.length]. rewrite trim_end_cons.
  destruct (trim_end r 0 (String.length r)) as [|k] eqn:E.
  - cbn [rstrip]. rewrite <- IH.
    replace (String.substring 0 0 r) with "" by (by destruct r).
    simpl. destruct (isspace c); [done|]. simpl. by destruct r.
  - cbn [rstrip]. rewrite <- IH.
    destruct r as [|c' r']; [done|]. simpl. done.
Qed.

Lemma trim_strip (s : string) : trim s = rstrip (lstrip s).
Proof.
  unfold trim. rewrite (length_lstrip s) at 1.
  rewrite trim_end_lstrip, substring_lstrip.
  replace (trim_start s + _ - trim_start s)
    with (trim_end (lstrip s) 0 (String.length (lstrip s))) by lia.
  apply substring_rstrip.
Qed.

Lemma lstrip_head (s : string) :
  lstrip s = "" ∨ ∃ c r, lstrip s = String c r ∧ isspace c = false.
Proof.
  induction s as [|c s IH]; [by left|]. simpl.
  destruct (isspace c) eqn:Hc; [done|]. right. eauto.
Qed.

Lemma lstrip_idemp (s : string) : lstrip (lstrip s) = lstrip s.
Proof.
  destruct (lstrip_head s) as [->|(c & r & -> & Hc)]; [done|].
  simpl. by rewrite Hc.
Qed.

Lemma rstrip_idemp (s : string) : rstrip (rstrip s) = rstrip s.
Proof.
  induction s as [|c s IH]; [done|]. cbn [rstrip].
  destruct (is_empty (rstrip s) && isspace c) eqn:E; [done|].
  cbn [rstrip]. by rewrite IH, E.
Qed.

Lemma lstrip_rstrip_lstrip (s : string) :
  lstrip (rstrip (lstrip s)) = rstrip (lstrip s).
Proof.
  destruct (lstrip_head s) as [->|(c & r & -> & Hc)]; [done|].
  cbn [rstrip]. rewrite Hc, andb_false_r. simpl. by rewrite Hc.
Qed.

Lemma trim_idemp (s : string) : trim (trim s) = trim s.
Proof.
  rewrite !trim_strip. by rewrite lstrip_rstrip_lstrip, rstrip_idemp.
Qed.

Lemma lstrip_trim (s : string) : lstrip (trim s) = trim s.
Proof. rewrite trim_strip. apply lstrip_rstrip_lstrip. Qed.

Lemma rstrip_trim (s : string) : rstrip (trim s) = trim s.
Proof. rewrite trim_strip. apply rstrip_idemp. Qed.

Lemma lstrip_all_space (s : string) :
  all_chars isspace s = true → lstrip s = "".
Proof.
  induction s as [|c s IH]; [done|]. simpl.
  intros [Hc Hs]%andb_true_iff. rewrite Hc. auto.
Qed.

Lemma trim_all_space (s : string) :
  all_chars isspace s = true → trim s = "".
Proof. intros H. by rewrite trim_strip, lstrip_all_space. Qed.

Lemma rstrip_empty_all_space (s : string) :
  rstrip s = "" → all_chars isspace s = true.
Proof.
  induction s as [|c s IH]; [done|]. cbn [rstrip all_chars].
  destruct (is_empty (rstrip s)) eqn:E; simpl; [|done].
  destruct (isspace c); [|done]. intros _. apply IH. by apply is_empty_true.
Qed.

Lemma trim_empty_all_space (s : string) :
  trim s = "" → all_chars isspace s = true.
Proof.
  rewrite trim_strip. intros H%rstrip_empty_all_space. revert H.
  induction s as [|c s IH]; [done|]. simpl.
  destruct (isspace c) eqn:Hc; simpl; [done|]. by rewrite Hc.
Qed.

(** ** The scan of [parseCSVLine] *)

(** The six cases of one round of the loop. *)
Lemma scan_in_quote_quote (r : string) (fs : list string) (f : string) :
  scan (String dquote (String dquote r)) (mkScan fs f true)
  = scan r (mkScan fs (push_back f dquote) true).
Proof. reflexivity. Qed.

Lemma scan_in_quote_end (r : string) (fs : list string) (f : string) :
  (∀ r', r ≠ String dquote r') →
  scan (String dquote r) (mkScan fs f true) = scan r (mkScan fs f false).
Proof.
  intros Hr. destruct r as [|c r']; [done|].
  destruct (Ascii.eqb_spec c dquote) as [->|Hc]; [by destruct (Hr r')|].
  apply Ascii.eqb_neq in Hc.
  change (scan (String dquote (String c r')) (mkScan fs f true))
    with (if Ascii.eqb c dquote
          then scan r' (mkScan fs (push_back f dquote) true)
          else scan (String c r') (mkScan fs f false)).
  by rewrite Hc.
Qed.

Lemma scan_in_char (ch : ascii) (r : string) (fs : list string) (f : string) :
  ch ≠ dquote →
  scan (String ch r) (mkScan fs f true) = scan r (mkScan fs (push_back f ch) true).
Proof.
  intros Hc%Ascii.eqb_neq.
  change (scan (String ch r) (mkScan fs f true))
    with (if Ascii.eqb ch dquote
          then match r with
               | String ch' rest' =>
                   if Ascii.eqb ch' dquote
                   then scan rest' (mkScan fs (push_back f dquote) true)
                   else scan r (mkScan fs f false)
               | "" => scan r (mkScan fs f false)
               end
          else scan r (mkScan fs (push_back f ch) true)).
  by rewrite Hc.
Qed.

Lemma scan_out_quote (r : string) (fs : list string) (f : string) :
  scan (String dquote r) (mkScan fs f false) = scan r (mkScan fs f true).
Proof. reflexivity. Qed.

Lemma scan_out_comma (r : string) (fs : list string) (f : string) :
  scan (String comma r) (mkScan fs f false) = scan r (mkScan (fs ++ [f]) "" false).
Proof. reflexivity. Qed.

Lemma scan_out_char (ch : ascii) (r : string) (fs : list string) (f : string) :
  ch ≠ dquote → ch ≠ comma →
  scan (String ch r) (mkScan fs f false) = scan r (mkScan fs (push_back f ch) false).
Proof.
  intros Hq%Ascii.eqb_neq Hk%Ascii.eqb_neq.
  change (scan (String ch r) (mkScan fs f false))
    with (if Ascii.eqb ch dquote then scan r (mkScan fs f true)
          else if Ascii.eqb ch comma then scan r (mkScan (fs ++ [f]) "" false)
          else scan r (mkScan fs (push_back f ch) false)).
  by rewrite Hq, Hk.
Qed.

(** The cases of a string for the loop: empty, a doubled quote, a quote
    followed by something else, or another character. *)
Lemma string_cases (a : string) :
  a = ""
  ∨ (∃ r, a = String dquote (String dquote r))
  ∨ (∃ r, a = String dquote r ∧ ∀ r', r ≠ String dquote r')
  ∨ (∃ ch r, a = String ch r ∧ ch ≠ dquote).
Proof.
  destruct a as [|ch r]; [by left|]. right.
  destruct (Ascii.eqb_spec ch dquote) as [->|Hch]; [|right; right; eauto].
  destruct r as [|ch' r']; [right; left; eauto|].
  destruct (Ascii.eqb_spec ch' dquote) as [->|Hch']; [left; eauto|].
  right; left. eexists; split; [done|]. congruence.
Qed.

(** A character other than a quote stops the lookahead, so the scan of what
    precedes it does not depend on what follows. *)
Lemma scan_app_sep_len (n : nat) :
  ∀ (a : string) (st : ScanState) (c : ascii) (b : string),
    String.length a ≤ n → c ≠ dquote →
    scan (a +:+ String c b) st = scan (String c b) (scan a st).
Proof.
  induction n as [|n IH]; intros a st c b Hlen Hc.
  { destruct a; [done|simpl in Hlen; lia]. }
  destruct st as [fs f [|]].
  - destruct (string_cases a) as [->|[[r ->]|[(r & -> & Hr)|(ch & r & -> & Hch)]]];
      [done|..]; simpl in Hlen; rewrite ?str_app_cons.
    + rewrite !scan_in_quote_quote. apply IH; [lia|done].
    + rewrite !scan_in_quote_end; [apply IH; [lia|done]|done|].
      intros r'. destruct r; [rewrite str_app_nil_l|rewrite str_app_cons]; naive_solver.
    + rewrite !scan_in_char by done. apply IH; [lia|done].
  - destruct a as [|ch r]; [done|]. simpl in Hlen. rewrite str_app_cons.
    destruct (Ascii.eqb_spec ch dquote) as [->|Hq].
    { rewrite !scan_out_quote. apply IH; [lia|done]. }
    destruct (Ascii.eqb_spec ch comma) as [->|Hk].
    + rewrite !scan_out_comma. apply IH; [lia|done].
    + rewrite !scan_out_char by done. apply IH; [lia|done].
Qed.

Lemma scan_app_sep (a : string) (st : ScanState) (c : ascii) (b : string) :
  c ≠ dquote → scan (a +:+ String c b) st = scan (String c b) (scan a st).
Proof. by apply (scan_app_sep_len (String.length a)). Qed.

(** Fields already pushed are never touched again. *)
Lemma scan_prepend_len (n : nat) :
  ∀ (b : string) (p : list string) (st : ScanState),
    String.length b ≤ n →
    scan b (prepend_fields p st) = prepend_fields p (scan b st).
Proof.
  induction n as [|n IH]; intros b p st Hlen.
  { destruct b; [done|simpl in Hlen; lia]. }
  destruct st as [fs f [|]]; unfold prepend_fields at 1;
    cbn [sc_fields sc_field sc_inQuotes].
  - destruct (string_cases b) as [->|[[r ->]|[(r & -> & Hr)|(ch & r & -> & Hch)]]];
      [done|..]; simpl in Hlen.
    + rewrite !scan_in_quote_quote. apply (IH r p (mkScan fs _ true)). lia.
    + rewrite !scan_in_quote_end by done. apply (IH r p (mkScan fs f false)). lia.
    + rewrite !scan_in_char by done. apply (IH r p (mkScan fs _ true)). lia.
  - destruct b as [|ch r]; [done|]. simpl in Hlen.
    destruct (Ascii.eqb_spec ch dquote) as [->|Hq].
    { rewrite !scan_out_quote. apply (IH r p (mkScan fs f true)). lia. }
    destruct (Ascii.eqb_spec ch comma) as [->|Hk].
    + rewrite !scan_out_comma, <- (assoc_L (++)).
      apply (IH r p (mkScan (fs ++ [f]) "" false)). lia.
    + rewrite !scan_out_char by done. apply (IH r p (mkScan fs _ false)). lia.
Qed.

Lemma scan_prepend (b : string) (p : list string) (st : ScanState) :
  scan b (prepend_fields p st) = prepend_fields p (scan b st).
Proof. by apply (scan_prepend_len (String.length b)). Qed.

Lemma scan_pushed (b : string) (p : list string) :
  scan b (mkScan p "" false) = prepend_fields p (scan b scan_init).
Proof.
  rewrite <- scan_prepend. unfold prepend_fields, scan_init. simpl.
  by rewrite (right_id_L [] (++)).
Qed.

(** A comma met outside a quoted region splits the line. *)
Lemma parseCSVLine_comma (a b : string) :
  closed a = true →
  parseCSVLine (a +:+ String comma b) = parseCSVLine a ++ parseCSVLine b.
Proof.
  unfold closed, parseCSVLine. intros Hcl.
  rewrite scan_app_sep by done.
  destruct (scan a scan_init) as [fs f inq]. simpl in Hcl.
  destruct inq; [done|]. rewrite scan_out_comma. cbn [sc_fields sc_field].
  rewrite scan_pushed. unfold prepend_fields. cbn [sc_fields sc_field].
  by rewrite <- fmap_app, <- (assoc_L (++)).
Qed.

(** Inside a quoted region every character is content, a doubled quote
    stands for one quote, and a single quote closes the region. *)
Lemma scan_escape (s : string) :
  ∀ (fs : list string) (f rest : string),
    (∀ r, rest ≠ String dquote r) →
    scan (escape s +:+ String dquote rest) (mkScan fs f true)
    = scan rest (mkScan fs (f +:+ s) false).
Proof.
  induction s as [|c s IH]; intros fs f rest Hrest.
  - rewrite str_app_nil_r. cbn [escape]. rewrite str_app_nil_l.
    by rewrite scan_in_quote_end.
  - cbn [escape]. destruct (Ascii.eqb_spec c dquote) as [->|Hc].
    + rewrite !str_app_cons, scan_in_quote_quote, IH by done.
      by rewrite push_back_app.
    + rewrite str_app_cons, scan_in_char, IH by done. by rewrite push_back_app.
Qed.

Lemma scan_enquote (s rest : string) (fs : list string) :
  (∀ r, rest ≠ String dquote r) →
  scan (enquote s +:+ rest) (mkScan fs "" false) = scan rest (mkScan fs s false).
Proof.
  intros Hrest. unfold enquote.
  rewrite str_app_cons, str_app_assoc, str_app_cons, str_app_nil_l, scan_out_quote.
  by rewrite scan_escape.
Qed.

Lemma parseCSVLine_enquote (s : string) : parseCSVLine (enquote s) = [trim s].
Proof.
  unfold parseCSVLine, scan_init. rewrite <- (str_app_nil_r (enquote s)).
  by rewrite scan_enquote.
Qed.

Lemma closed_enquote (s : string) : closed (enquote s) = true.
Proof.
  unfold closed, scan_init. rewrite <- (str_app_nil_r (enquote s)).
  by rewrite scan_enquote.
Qed.

(** Outside a quoted region, characters other than quotes and commas are
    content. *)
Lemma scan_plain (s : string) :
  ∀ (fs : list string) (f : string),
    all_chars plain_char s = true →
    scan s (mkScan fs f false) = mkScan fs (f +:+ s) false.
Proof.
  induction s as [|c s IH]; intros fs f Hs.
  - by rewrite str_app_nil_r.
  - cbn [all_chars] in Hs. apply andb_true_iff in Hs as [Hc Hs].
    unfold plain_char in Hc. apply andb_true_iff in Hc as [Hq Hk].
    apply negb_true_iff in Hq, Hk. apply Ascii.eqb_neq in Hq, Hk.
    rewrite scan_out_char, IH by done. by rewrite push_back_app.
Qed.

Lemma parseCSVLine_plain (s : string) :
  all_chars plain_char s = true → parseCSVLine s = [trim s].
Proof.
  intros Hs. unfold parseCSVLine, scan_init. by rewrite scan_plain.
Qed.

Lemma parseCSVLine_trimmed (line f : string) :
  f ∈ parseCSVLine line → trim f = f.
Proof.
  unfold parseCSVLine. intros (g & -> & _)%list_elem_of_fmap.
  apply trim_idemp.
Qed.

Lemma all_space_plain (s : string) :
  all_chars isspace s = true → all_chars plain_char s = true.
Proof.
  induction s as [|c s IH]; [done|]. cbn [all_chars].
  intros [Hc Hs]%andb_true_iff. rewrite IH, andb_true_r by done.
  revert Hc. by destruct c as [[] [] [] [] [] [] [] []].
Qed.

(** A line that is blank after trimming parses to one empty field. *)
Lemma parseCSVLine_blank (line : string) :
  trim line = "" → parseCSVLine line = [""].
Proof.
  intros H. rewrite parseCSVLine_plain, H; [done|].
  by apply all_space_plain, trim_empty_all_space.
Qed.

Lemma closed_write_line (fields : list string) : closed (write_line fields) = true.
Proof.
  induction fields as [|f [|g rest] IH]; [done|apply closed_enquote|].
  change (write_line (f :: g :: rest))
    with (enquote f +:+ String comma (write_line (g :: rest))).
  unfold closed in *. rewrite scan_app_sep by done.
  pose proof (closed_enquote f) as Hf. unfold closed in Hf.
  destruct (scan (enquote f) scan_init) as [fs x [|]]; [done|].
  rewrite scan_out_comma, scan_pushed. done.
Qed.

Lemma parseCSVLine_write_line (fields : list string) :
  fields ≠ [] → parseCSVLine (write_line fields) = trim <$> fields.
Proof.
  induction fields as [|f [|g rest] IH]; intros Hne; [done|apply parseCSVLine_enquote|].
  change (write_line (f :: g :: rest))
    with (enquote f +:+ String comma (write_line (g :: rest))).
  rewrite parseCSVLine_comma by apply closed_enquote.
  rewrite parseCSVLine_enquote, IH by done. done.
Qed.

(** ** Every line is a written line *)

(** Each quote changes side, a doubled quote inside a region twice: the
    scan is inside a quoted region exactly after an odd number of quotes. *)
Lemma scan_inQuotes_parity_len (n : nat) :
  ∀ (a : string) (fs : list string) (f : string) (inq : bool),
    String.length a ≤ n →
    sc_inQuotes (scan a (mkScan fs f inq))
    = xorb inq (Nat.odd (count_char dquote a)).
Proof.
  induction n as [|n IH]; intros a fs f inq Hlen.
  { destruct a; [by destruct inq|simpl in Hlen; lia]. }
  destruct inq.
  - destruct (string_cases a) as [->|[[r ->]|[(r & -> & Hr)|(ch & r & -> & Hch)]]];
      [done|..]; simpl in Hlen.
    + rewrite scan_in_quote_quote, IH by lia.
      change (count_char dquote (String dquote (String dquote r)))
        with (S (S (count_char dquote r))).
      by rewrite Nat.odd_succ_succ.
    + rewrite scan_in_quote_end, IH by (done || lia).
      change (count_char dquote (String dquote r)) with (S (count_char dquote r)).
      rewrite Nat.odd_succ, <- Nat.negb_odd. by destruct (Nat.odd _).
    + rewrite scan_in_char, IH by (done || lia). cbn [count_char].
      apply Ascii.eqb_neq in Hch. by rewrite Hch.
  - destruct a as [|ch r]; [done|]. simpl in Hlen.
    destruct (Ascii.eqb_spec ch dquote) as [->|Hq].
    { rewrite scan_out_quote, IH by lia.
      change (count_char dquote (String dquote r)) with (S (count_char dquote r)).
      rewrite Nat.odd_succ, <- Nat.negb_odd. by destruct (Nat.odd _). }
    assert (count_char dquote (String ch r) = count_char dquote r) as ->.
    { cbn [count_char]. apply Ascii.eqb_neq in Hq. by rewrite Hq. }
    destruct (Ascii.eqb_spec ch comma) as [->|Hk].
    + rewrite scan_out_comma. apply IH. lia.
    + rewrite scan_out_char by done. apply IH. lia.
Qed.

Lemma closed_even_quotes (a : string) :
  closed a = Nat.even (count_char dquote a).
Proof.
  unfold closed, scan_init.
  rewrite (scan_inQuotes_parity_len (String.length a)) by done.
  cbn [xorb]. apply Nat.negb_odd.
Qed.

Lemma starts_quote_false (s : string) :
  starts_quote s = false ↔ ∀ r, s ≠ String dquote r.
Proof.
  destruct s as [|c s]; [done|]. cbn [starts_quote]. split.
  - intros Hc%Ascii.eqb_neq r [= -> _]. done.
  - intros Hs. apply Ascii.eqb_neq. intros ->. by apply (Hs s).
Qed.

Lemma scan_plain_app (s : string) :
  ∀ (rest : string) (fs : list string) (f : string),
    all_chars plain_char s = true →
    scan (s +:+ rest) (mkScan fs f false) = scan rest (mkScan fs (f +:+ s) false).
Proof.
  induction s as [|c s IH]; intros rest fs f Hs.
  - by rewrite str_app_nil_l, str_app_nil_r.
  - cbn [all_chars] in Hs. apply andb_true_iff in Hs as [Hc Hs].
    unfold plain_char in Hc. apply andb_true_iff in Hc as [Hq Hk].
    apply negb_true_iff, Ascii.eqb_neq in Hq.
    apply negb_true_iff, Ascii.eqb_neq in Hk.
    rewrite str_app_cons, scan_out_char, IH by done. by rewrite push_back_app.
Qed.

Lemma scan_quoted_app (q rest : string) (fs : list string) (f : string) :
  starts_quote rest = false →
  scan (enquote q +:+ rest) (mkScan fs f false)
  = scan rest (mkScan fs (f +:+ q) false).
Proof.
  intros Hrest. pose proof (proj1 (starts_quote_false rest) Hrest) as Hrest'.
  unfold enquote.
  rewrite str_app_cons, str_app_assoc, str_app_cons, str_app_nil_l, scan_out_quote.
  by rewrite scan_escape.
Qed.

Lemma scan_escape_open (q : string) :
  ∀ (fs : list string) (f : string),
    scan (escape q) (mkScan fs f true) = mkScan fs (f +:+ q) true.
Proof.
  induction q as [|c q IH]; intros fs f.
  - by rewrite str_app_nil_r.
  - cbn [escape]. destruct (Ascii.eqb_spec c dquote) as [->|Hc].
    + rewrite scan_in_quote_quote, IH. by rewrite push_back_app.
    + rewrite scan_in_char, IH by done. by rewrite push_back_app.
Qed.

Lemma starts_quote_plain (s rest : string) :
  is_empty s = false → all_chars plain_char s = true →
  starts_quote (s +:+ rest) = false.
Proof.
  destruct s as [|c s]; [done|]. intros _ Hs. cbn [all_chars] in Hs.
  apply andb_true_iff in Hs as [Hc _]. unfold plain_char in Hc.
  apply andb_true_iff in Hc as [Hq _]. by apply negb_true_iff in Hq.
Qed.

(** The scan of a well written field leaves its content in the field being
    read. *)
Lemma scan_field (ps : list piece) :
  ∀ (rest : string) (fs : list string) (f : string),
    wf_field ps = true →
    (ends_quoted ps = true → starts_quote rest = false) →
    scan (render_field ps +:+ rest) (mkScan fs f false)
    = scan rest (mkScan fs (f +:+ field_content ps) false).
Proof.
  induction ps as [|p ps IH]; intros rest fs f Hwf Hend.
  - cbn [render_field field_content]. by rewrite str_app_nil_l, str_app_nil_r.
  - cbn [render_field field_content]. rewrite str_app_assoc.
    destruct p as [s|q]; cbn [render_piece piece_content].
    + cbn [wf_field] in Hwf. apply andb_true_iff in Hwf as [Hs Hwf].
      apply andb_true_iff in Hs as [Hne Hs].
      rewrite scan_plain_app by done.
      rewrite IH; [by rewrite str_app_assoc|done|].
      intros He. apply Hend. by destruct ps.
    + assert (wf_field ps = true ∧ starts_quote (render_field ps +:+ rest) = false)
        as [Hwf' Hst].
      { destruct ps as [|[s|q'] ps'].
        - split; [done|]. rewrite str_app_nil_l. by apply Hend.
        - cbn [wf_field] in Hwf. split; [done|].
          apply andb_true_iff in Hwf as [Hs _].
          apply andb_true_iff in Hs as [Hne%negb_true_iff Hs].
          cbn [render_field render_piece]. rewrite str_app_assoc.
          by apply starts_quote_plain.
        - done. }
      rewrite scan_quoted_app by done.
      rewrite IH; [by rewrite str_app_assoc|done|].
      intros He. apply Hend. by destruct ps.
Qed.

(** The scan of well written fields separated by commas. *)
Lemma scan_fields (fields : list (list piece)) :
  ∀ (f0 : list piece) (fs : list string),
    Forall (λ f, wf_field f = true) (f0 :: fields) →
    (let st := scan (render_fields (f0 :: fields)) (mkScan fs "" false) in
     sc_fields st ++ [sc_field st] = fs ++ (field_content <$> f0 :: fields))
    ∧ ∀ q, (∀ f, last (f0 :: fields) = Some f → ends_quoted f = false) →
        let st := scan (render_fields (f0 :: fields) +:+ String dquote (escape q))
                    (mkScan fs "" false) in
        sc_fields st ++ [sc_field st]
        = fs ++ append_to_last q (field_content <$> f0 :: fields).
Proof.
  induction fields as [|g fields IH]; intros f0 fs Hwf.
  - apply Forall_cons in Hwf as [Hwf0 _]. cbn [render_fields]. split.
    + rewrite <- (str_app_nil_r (render_field f0)).
      rewrite scan_field by done. done.
    + intros q Hlast. cbn zeta.
      rewrite scan_field, scan_out_quote, scan_escape_open; [done|done|].
      intros He. by rewrite (Hlast f0) in He.
  - apply Forall_cons in Hwf as [Hwf0 Hwf].
    change (render_fields (f0 :: g :: fields))
      with (render_field f0 +:+ String comma (render_fields (g :: fields))).
    destruct (IH g (fs ++ [field_content f0]) Hwf) as [IH1 IH2]. split.
    + cbn zeta. rewrite scan_field, scan_out_comma by done.
      rewrite str_app_nil_l. cbn zeta in IH1. rewrite IH1.
      by rewrite <- (assoc_L (++)).
    + intros q Hlast. cbn zeta.
      rewrite str_app_assoc, str_app_cons, scan_field, scan_out_comma by done.
      rewrite str_app_nil_l. rewrite (IH2 q).
      * by rewrite <- (assoc_L (++)).
      * intros f Hf. apply Hlast. by rewrite last_cons, Hf.
Qed.

(** Reading a well written line gives the content of its fields. *)
Lemma parseCSVLine_render_line (l : written_line) :
  wf_line l → parseCSVLine (render_line l) = trim <$> line_contents l.
Proof.
  intros (Hne & Hwf & Hopen). unfold parseCSVLine, render_line, line_contents, scan_init.
  destruct (wl_fields l) as [|f0 fields] eqn:Hf; [done|]. f_equal.
  destruct (scan_fields fields f0 [] Hwf) as [H1 H2].
  destruct (wl_open l) as [q|].
  - apply H2. apply Hopen. by eexists.
  - rewrite str_app_nil_r. apply H1.
Qed.

(** What follows an opening quote is a region with its closing quote,
    followed by something that does not start with a quote, or a region that
    is never closed. *)
Lemma quoted_split_len (n : nat) :
  ∀ s : string, String.length s ≤ n →
    (∃ q s', s = escape q +:+ String dquote s' ∧ starts_quote s' = false
             ∧ String.length s' < String.length s)
    ∨ (∃ q, s = escape q).
Proof.
  induction n as [|n IH]; intros s Hlen.
  { destruct s; [right; by exists ""|simpl in Hlen; lia]. }
  destruct (string_cases s) as [->|[[r ->]|[(r & -> & Hr)|(ch & r & -> & Hch)]]];
    simpl in Hlen.
  - right. by exists "".
  - destruct (IH r) as [(q & s' & -> & Hs' & Hl)|(q & ->)]; [lia|left|right].
    + exists (String dquote q), s'. split; [|split; [done|simpl; lia]].
      cbn [escape]. change (Ascii.eqb dquote dquote) with true. done.
    + exists (String dquote q). cbn [escape].
      change (Ascii.eqb dquote dquote) with true. done.
  - left. exists "", r. split; [done|]. split; [by apply starts_quote_false|].
    simpl. lia.
  - destruct (IH r) as [(q & s' & -> & Hs' & Hl)|(q & ->)]; [lia|left|right].
    + exists (String ch q), s'. split; [|split; [done|simpl; lia]].
      cbn [escape]. apply Ascii.eqb_neq in Hch. by rewrite Hch.
    + exists (String ch q). cbn [escape]. apply Ascii.eqb_neq in Hch. by rewrite Hch.
Qed.

Lemma render_prepend_piece (p : piece) (l : written_line) :
  wl_fields l ≠ [] →
  render_line (prepend_piece p l) = render_piece p +:+ render_line l.
Proof.
  unfold prepend_piece, render_line. destruct (wl_fields l) as [|f0 fields]; [done|].
  intros _. cbn [wl_fields wl_open]. rewrite <- str_app_assoc. f_equal.
  destruct fields as [|g fields]; cbn [render_fields render_field].
  - done.
  - by rewrite str_app_assoc.
Qed.

Lemma ends_quoted_cons (p : piece) (ps : list piece) :
  ps ≠ [] → ends_quoted (p :: ps) = ends_quoted ps.
Proof. destruct ps; [done|]. by destruct p. Qed.

Lemma wf_prepend_piece (p : piece) (l : written_line) :
  wf_line l →
  (∀ f0 fields, wl_fields l = f0 :: fields → wf_field (p :: f0) = true) →
  (∀ q, p = Quoted q → wl_fields l = [[]] → wl_open l = None) →
  wf_line (prepend_piece p l).
Proof.
  intros (Hne & Hwf & Hopen) Hp Hq. unfold prepend_piece, wf_line.
  destruct (wl_fields l) as [|f0 fields] eqn:Hf; [done|].
  cbn [wl_fields wl_open]. split; [done|]. split.
  - apply Forall_cons in Hwf as [_ Hwf]. apply Forall_cons. split; [by eapply Hp|done].
  - intros Ho f Hlast. destruct fields as [|g fields].
    + cbn in Hlast. injection Hlast as <-. destruct f0 as [|p0 f0].
      * destruct p as [s|q]; [done|]. rewrite (Hq q) in Ho by done.
        by destruct Ho.
      * rewrite ends_quoted_cons by done. by apply Hopen.
    + apply Hopen; [done|]. exact Hlast.
Qed.

Lemma render_line_starts_quote (l : written_line) :
  wf_line l → starts_quote (render_line l) = false →
  (∀ f0 fields q, wl_fields l = f0 :: fields → wf_field (Quoted q :: f0) = true)
  ∧ (wl_fields l = [[]] → wl_open l = None).
Proof.
  intros (Hne & Hwf & Hopen) Hst. unfold render_line in Hst. split.
  - intros f0 fields q Hf. rewrite Hf in Hwf, Hst.
    apply Forall_cons in Hwf as [Hwf0 _].
    destruct f0 as [|[s|q'] f0]; [done|done|].
    exfalso. destruct fields; cbn in Hst; done.
  - intros Hf. rewrite Hf in Hst. destruct (wl_open l); [done|done].
Qed.

Lemma written_line_exists_len (n : nat) :
  ∀ s : string, String.length s ≤ n → ∃ l, wf_line l ∧ render_line l = s.
Proof.
  induction n as [|n IH]; intros s Hlen.
  { destruct s; [|simpl in Hlen; lia]. exists (mkWritten [[]] None).
    split; [|done]. split; [done|]. split; [by repeat constructor|].
    by intros [? [=]]. }
  destruct s as [|c r].
  { exists (mkWritten [[]] None). split; [|done].
    split; [done|]. split; [by repeat constructor|]. by intros [? [=]]. }
  simpl in Hlen. destruct (Ascii.eqb_spec c dquote) as [->|Hq].
  - destruct (quoted_split_len (String.length r) r) as
      [(q & s' & -> & Hs' & Hl)|(q & ->)]; [done|..].
    + destruct (IH s') as (l & Hwf & Hr); [lia|].
      destruct (render_line_starts_quote l Hwf) as [Hfirst Hempty];
        [by rewrite Hr|].
      exists (prepend_piece (Quoted q) l). split.
      * apply wf_prepend_piece; [done| |].
        -- intros f0 fields Hf. by eapply Hfirst.
        -- intros q' _. apply Hempty.
      * rewrite render_prepend_piece by apply Hwf. rewrite Hr.
        cbn [render_piece]. unfold enquote.
        by rewrite str_app_cons, str_app_assoc.
    + exists (mkWritten [[]] (Some q)). split; [|done].
      split; [done|]. split; [by repeat constructor|].
      by intros _ f [= <-].
  - destruct (IH r) as (l & Hwf & Hr); [lia|].
    destruct (Ascii.eqb_spec c comma) as [->|Hk].
    + exists (mkWritten ([] :: wl_fields l) (wl_open l)). split.
      * destruct Hwf as (Hne & Hwf & Hopen). split; [done|]. split.
        -- by apply Forall_cons.
        -- cbn [wl_fields wl_open]. intros Ho f Hlast. apply Hopen; [done|].
           destruct (wl_fields l); [done|]. exact Hlast.
      * unfold render_line in *. cbn [wl_fields wl_open].
        destruct Hwf as (Hne & _). destruct (wl_fields l) as [|f0 fields]; [done|].
        change (render_fields ([] :: f0 :: fields))
          with ("" +:+ String comma (render_fields (f0 :: fields))).
        by rewrite str_app_nil_l, str_app_cons, Hr.
    + exists (prepend_piece (Plain (String c "")) l). split.
      * apply wf_prepend_piece; [done| |done].
        intros f0 fields Hf. destruct Hwf as (_ & Hwf & _). rewrite Hf in Hwf.
        apply Forall_cons in Hwf as [Hwf0 _]. cbn [wf_field is_empty negb all_chars].
        unfold plain_char. apply Ascii.eqb_neq in Hq, Hk. by rewrite Hq, Hk, Hwf0.
      * rewrite render_prepend_piece by apply Hwf. by rewrite Hr.
Qed.

Lemma written_line_exists (s : string) :
  ∃ l, wf_line l ∧ render_line l = s.
Proof. by apply (written_line_exists_len (String.length s)). Qed.

Lemma parseCSVLine_quoted_inside (pre q post : string) :
  all_chars plain_char pre = true → all_chars plain_char post = true →
  parseCSVLine (pre +:+ enquote q +:+ post) = [trim (pre +:+ q +:+ post)].
Proof.
  intros Hpre Hpost. unfold parseCSVLine, scan_init.
  rewrite scan_plain_app, scan_quoted_app, scan_plain by
    (done || (destruct post as [|c post]; [done|];
              cbn [all_chars] in Hpost; apply andb_true_iff in Hpost as [Hc _];
              unfold plain_char in Hc; apply andb_true_iff in Hc as [Hq _];
              by apply negb_true_iff in Hq)).
  cbn [sc_fields sc_field app fmap list_fmap]. by rewrite str_app_assoc.
Qed.

(** C1. [parseCSVLine] on every line. Every line is a well written line:
    fields separated by commas, each made of stretches of text without
    quote or comma and of regions between double quotes, in which quotes
    are doubled, the last region possibly left open; wherever the quoted
    regions start and end in a field, the fields returned are the trimmed
    contents of the fields written: a comma between quotes is content, a
    doubled quote between quotes is one quote character, the quotes that
    open and close a region are dropped. A comma splits the line exactly
    when an even number of quotes precedes it, which is when the scan is
    outside a quoted region; the fields of the part before such a comma are
    followed by those of the part after it. A field written between quotes
    is read back whole, also in the middle of plain text; a record of
    quoted fields is read back field by field; a line without quotes and
    commas is one field; every field returned has no white space at either
    end. The two example lines of the specification parse to the three
    fields it gives, and so does a line whose quoted title follows a
    space. *)
Theorem parseCSVLine_quoted_fields :
  (∀ line : string, ∃ l : written_line,
     wf_line l ∧ render_line l = line
     ∧ parseCSVLine line = trim <$> line_contents l)
  ∧ (∀ l : written_line, wf_line l →
       parseCSVLine (render_line l) = trim <$> line_contents l)
  ∧ (∀ a b : string, Nat.even (count_char dquote a) = true →
       parseCSVLine (a +:+ String comma b) = parseCSVLine a ++ parseCSVLine b)
  ∧ (∀ a : string, closed a = Nat.even (count_char dquote a))
  ∧ (∀ pre q post : string,
       all_chars plain_char pre = true → all_chars plain_char post = true →
       parseCSVLine (pre +:+ enquote q +:+ post) = [trim (pre +:+ q +:+ post)])
  ∧ (∀ s : string, parseCSVLine (enquote s) = [trim s])
  ∧ (∀ fields : list string, fields ≠ [] →
       parseCSVLine (write_line fields) = trim <$> fields)
  ∧ (∀ s : string, all_chars plain_char s = true → parseCSVLine s = [trim s])
  ∧ (∀ line f : string, f ∈ parseCSVLine line →
       trim f = f ∧ lstrip f = f ∧ rstrip f = f)
  ∧ parseCSVLine line_quoted_comma = ["a"; "b,c"; "d"]
  ∧ parseCSVLine line_doubled_quote = ["a"; "b" +:+ String dquote "c"; "d"]
  ∧ parseCSVLine line_quoted_title = ["CSCI200"; "Data, Structures"; "CSCI100"].
Proof.
  split_and!.
  - intros line. destruct (written_line_exists line) as (l & Hwf & Hl).
    exists l. split; [done|]. split; [done|].
    rewrite <- Hl. by apply parseCSVLine_render_line.
  - apply parseCSVLine_render_line.
  - intros a b Ha. apply parseCSVLine_comma. by rewrite closed_even_quotes.
  - apply closed_even_quotes.
  - apply parseCSVLine_quoted_inside.
  - apply parseCSVLine_enquote.
  - apply parseCSVLine_write_line.
  - apply parseCSVLine_plain.
  - intros line f Hf. apply parseCSVLine_trimmed in Hf.
    rewrite <- Hf. auto using trim_idemp, lstrip_trim, rstrip_trim.
  - reflexivity.
  - reflexivity.
  - reflexivity.
Qed.

Lemma parseCSVLine_quoted_fields_witness :
  parseCSVLine
    (render_line
       (mkWritten [[Plain "CSCI200"]; [Plain " "; Quoted "Data, Structures"];
                   [Plain " CSCI100 "; Quoted "x"; Plain "y"]] (Some ", open")))
  = ["CSCI200"; "Data, Structures"; "CSCI100 xy, open"]
  ∧ parseCSVLine ((" x ," +:+ enquote "y, z") +:+ String comma " w")
    = ["x"; "y, z"; "w"]
  ∧ parseCSVLine (" a " +:+ enquote "b,c" +:+ " d") = ["a b,c d"]
  ∧ parseCSVLine (write_line [" a,b "; String dquote "q"]) = ["a,b"; String dquote "q"]
  ∧ parseCSVLine " no separators here " = ["no separators here"]
  ∧ trim "y, z" = "y, z".
Proof.
  pose proof parseCSVLine_quoted_fields
    as (_ & Hwritten & Hcomma & _ & Hinside & _ & Hwrite & Hplain & Htrim & _).
  split_and!.
  - rewrite Hwritten; [reflexivity|]. split; [discriminate|].
    split; [by repeat constructor|]. intros _ f [= <-]. reflexivity.
  - rewrite (Hcomma (" x ," +:+ enquote "y, z") " w"); reflexivity.
  - rewrite (Hinside " a " "b,c" " d"); reflexivity.
  - rewrite (Hwrite [" a,b "; String dquote "q"]); [reflexivity|discriminate].
  - rewrite (Hplain " no separators here "); reflexivity.
  - apply (Htrim ("x," +:+ enquote "y, z") "y, z"). vm_compute.
    apply list_elem_of_In. simpl. auto.
Defined.

(** ** The catalog builder *)

Lemma subscript_lookup (cid k : string) (m : gmap string Course) :
  subscript cid m !! k
  = if decide (k = cid) then Some (default Course_default (m !! cid)) else m !! k.
Proof.
  unfold subscript. destruct (m !! cid) as [c|] eqn:E.
  - case_decide; by simplify_eq/=.
  - case_decide; simplify_eq/=; [by rewrite lookup_insert_eq|by rewrite lookup_insert_ne].
Qed.

Lemma Course_eta (c : Course) : mkCourse (id c) (title c) (prereqs c) = c.
Proof. by destruct c. Qed.

(** What the prerequisite loop leaves in the map: the course of key [cid]
    gains the identifiers of the fields, in order; every identifier without
    an entry gets a placeholder; nothing else changes. *)
Lemma load_prereqs_lookup (cid : string) (fields : list string) :
  ∀ (m : gmap string Course) (c : Course) (k : string),
    m !! cid = Some c →
    load_prereqs cid fields m !! k
    = if decide (k = cid)
      then Some (mkCourse (id c) (title c) (prereqs c ++ prereq_ids fields))
      else match m !! k with
           | Some e => Some e
           | None => if decide (k ∈ prereq_ids fields) then Some (placeholder k) else None
           end.
Proof.
  induction fields as [|f rest IH]; intros m c k Hc.
  - cbn [load_prereqs prereq_ids]. rewrite (right_id_L [] (++)), Course_eta.
    case_decide; [by subst|]. destruct (m !! k); [done|].
    rewrite decide_False; [done|]. by intros ?%elem_of_nil.
  - cbn [load_prereqs prereq_ids].
    destruct (is_empty (toUpper (trim f))) eqn:Ep; [by apply IH|].
    set (p := toUpper (trim f)) in *.
    set (m1 := alter (push_prereq p) cid m).
    assert (m1 !! cid = Some (push_prereq p c)) as H1.
    { unfold m1. by rewrite lookup_alter_eq, Hc. }
    assert (∀ j, j ≠ cid → m1 !! j = m !! j) as H1'.
    { intros j Hj. unfold m1. by rewrite lookup_alter_ne. }
    set (m2 := match m1 !! p with
               | Some _ => m1
               | None => <[p:=placeholder p]> m1
               end).
    assert (m2 !! cid = Some (push_prereq p c)) as H2.
    { unfold m2. destruct (m1 !! p) eqn:E1; [done|].
      rewrite lookup_insert_ne; [done|]. intros ->. congruence. }
    rewrite (IH m2 _ k H2). case_decide as Hk.
    { unfold push_prereq. cbn [id title prereqs]. by rewrite <- (assoc_L (++)). }
    assert (m2 !! k = match m !! k with
                      | Some e => Some e
                      | None => if decide (k = p) then Some (placeholder k) else None
                      end) as ->.
    { unfold m2. destruct (m1 !! p) eqn:E1.
      - rewrite H1' by done. destruct (m !! k) eqn:Ek; [done|].
        case_decide; [|done]. subst k. rewrite H1' in E1 by done. congruence.
      - destruct (decide (k = p)) as [->|Hkp].
        + rewrite lookup_insert_eq. rewrite H1' in E1 by done. by rewrite E1.
        + rewrite lookup_insert_ne by done. rewrite H1' by done.
          by destruct (m !! k). }
    destruct (m !! k) eqn:Ek; [done|].
    destruct (decide (k = p)) as [->|Hkp].
    + rewrite decide_True; [done|]. apply elem_of_cons; auto.
    + destruct (decide (k ∈ prereq_ids rest)) as [Hin|Hnin].
      * rewrite decide_True; [done|]. apply elem_of_cons; auto.
      * rewrite decide_False; [done|]. intros [?|?]%elem_of_cons; done.
Qed.

Lemma load_fields_lookup (n : N) (f0 f1 : string) (rest : list string)
    (m : gmap string Course) (w : list string) (k : string) :
  toUpper (trim f0) ≠ "" →
  (load_fields n (f0 :: f1 :: rest) m w).1 !! k
  = if decide (k = toUpper (trim f0))
    then Some (merged m (toUpper (trim f0)) f1 rest)
    else match m !! k with
         | Some e => Some e
         | None => if decide (k ∈ prereq_ids rest) then Some (placeholder k) else None
         end.
Proof.
  intros Hcid%is_empty_false. cbn [load_fields]. rewrite Hcid. cbn [fst].
  set (cid := toUpper (trim f0)) in *.
  set (m1 := alter (set_id cid) cid (subscript cid m)).
  set (old := default Course_default (m !! cid)).
  assert (m1 !! cid = Some (set_id cid old)) as H1.
  { unfold m1. rewrite lookup_alter_eq, subscript_lookup.
    by rewrite decide_True. }
  assert (∀ j, j ≠ cid → m1 !! j = m !! j) as H1'.
  { intros j Hj. unfold m1. rewrite lookup_alter_ne, subscript_lookup by done.
    by rewrite decide_False. }
  set (m2 := if is_empty f1 then m1 else alter (set_title f1) cid m1).
  assert (m2 !! cid
          = Some (mkCourse cid (if is_empty f1 then title old else f1) (prereqs old)))
    as H2.
  { unfold m2. destruct (is_empty f1); [done|].
    by rewrite lookup_alter_eq, H1. }
  assert (∀ j, j ≠ cid → m2 !! j = m !! j) as H2'.
  { intros j Hj. unfold m2. destruct (is_empty f1); [by apply H1'|].
    rewrite lookup_alter_ne by done. by apply H1'. }
  rewrite (load_prereqs_lookup cid rest m2 _ k H2).
  case_decide; [done|]. by rewrite H2'.
Qed.

Lemma load_fields_warnings (n : N) (f0 f1 : string) (rest : list string)
    (m : gmap string Course) (w : list string) :
  toUpper (trim f0) ≠ "" →
  (load_fields n (f0 :: f1 :: rest) m w).2
  = if is_empty f1
    then w ++ ["Line " +:+ to_string n +:+ " has empty title for course "
               +:+ toUpper (trim f0)]
    else w.
Proof.
  intros Hcid%is_empty_false. cbn [load_fields]. by rewrite Hcid.
Qed.

(** The lines that are dropped leave the catalog as it is. *)
Lemma load_fields_skip (n : N) (fields : list string)
    (m : gmap string Course) (w : list string) :
  (length fields < 2 ∨ ∃ f0 rest, fields = f0 :: rest ∧ toUpper (trim f0) = "") →
  (load_fields n fields m w).1 = m.
Proof.
  intros [Hlen|(f0 & rest & -> & H0)].
  - destruct fields as [|f0 [|f1 rest]]; [done..|simpl in Hlen; lia].
  - destruct rest as [|f1 rest]; [done|]. cbn [load_fields]. by rewrite H0.
Qed.

Lemma load_fields_cases (n : N) (fields : list string)
    (m : gmap string Course) (w : list string) :
  (load_fields n fields m w).1 = m
  ∨ ∃ f0 f1 rest, fields = f0 :: f1 :: rest ∧ toUpper (trim f0) ≠ "".
Proof.
  destruct fields as [|f0 [|f1 rest]]; [by left..|].
  destruct (decide (toUpper (trim f0) = "")) as [H0|H0].
  - left. apply load_fields_skip. right. eauto.
  - right. eauto.
Qed.

(** A property of the catalog that every parsed line preserves holds
    throughout the loop. *)
Lemma load_loop_inv (P : gmap string Course → Prop) :
  (∀ n fields m w, P m → P (load_fields n fields m w).1) →
  ∀ lines n m w, P m → P (load_loop lines n m w).1.
Proof.
  intros Hstep lines. induction lines as [|line rest IH]; intros n m w Hm; [done|].
  cbn [load_loop].
  destruct (load_line (size_t_incr n) line m w) as [m' w'] eqn:E.
  apply IH. replace m' with (load_line (size_t_incr n) line m w).1 by (by rewrite E).
  unfold load_line. destruct (is_empty (trim line)); [done|]. by apply Hstep.
Qed.

Lemma prereq_ids_upper (fields : list string) (p : string) :
  p ∈ prereq_ids fields → ∃ s, p = toUpper s ∧ p ≠ "".
Proof.
  induction fields as [|f rest IH]; cbn [prereq_ids]; [by intros ?%elem_of_nil|].
  destruct (is_empty (toUpper (trim f))) eqn:E; [done|].
  intros [->|?]%elem_of_cons; [|by apply IH].
  apply is_empty_false in E. eauto.
Qed.

(** *** Invariants of the catalog *)

(** One round of the loop, on any fields and any state. *)
Section load_fields_invariants.
Context (n : N) (fields : list string) (m : gmap string Course) (w : list string).

Lemma load_fields_mono (k : string) :
  is_Some (m !! k) → is_Some ((load_fields n fields m w).1 !! k).
Proof.
  intros [e He].
  destruct (load_fields_cases n fields m w) as [->|(f0 & f1 & rest & -> & Hcid)];
    [by eexists|].
  rewrite load_fields_lookup by done. case_decide; [by eexists|].
  rewrite He. by eexists.
Qed.

Lemma load_fields_keys_are_ids :
  keys_are_ids m → keys_are_ids (load_fields n fields m w).1.
Proof.
  intros Hm.
  destruct (load_fields_cases n fields m w) as [->|(f0 & f1 & rest & -> & Hcid)];
    [done|].
  intros k c. rewrite load_fields_lookup by done. case_decide as Hk.
  - intros [= <-]. by subst k.
  - destruct (m !! k) as [e|] eqn:Ek.
    + intros [= <-]. by apply Hm.
    + case_decide; [|done]. by intros [= <-].
Qed.

Lemma load_fields_keys_upper :
  keys_upper m → keys_upper (load_fields n fields m w).1.
Proof.
  intros Hm.
  destruct (load_fields_cases n fields m w) as [->|(f0 & f1 & rest & -> & Hcid)];
    [done|].
  intros k c. rewrite load_fields_lookup by done. case_decide as Hk.
  - intros _. subst k. split; [apply toUpper_idemp|apply toUpper_no_lower].
  - destruct (m !! k) as [e|] eqn:Ek.
    + intros _. by apply (Hm k e).
    + case_decide as Hin; [|done]. intros _.
      apply prereq_ids_upper in Hin as (s & -> & _).
      split; [apply toUpper_idemp|apply toUpper_no_lower].
Qed.

Lemma load_fields_prereqs_closed :
  prereqs_closed m → prereqs_closed (load_fields n fields m w).1.
Proof.
  intros Hm.
  destruct (load_fields_cases n fields m w) as [->|(f0 & f1 & rest & -> & Hcid)];
    [done|].
  assert (∀ p, is_Some (m !! p) ∨ p ∈ prereq_ids rest →
    is_Some ((load_fields n (f0 :: f1 :: rest) m w).1 !! p)) as Hsome.
  { intros p Hp. rewrite load_fields_lookup by done. case_decide; [by eexists|].
    destruct (m !! p) as [e|]; [by eexists|].
    destruct Hp as [[? [=]]|Hp]. rewrite decide_True by done. by eexists. }
  intros k c p. rewrite load_fields_lookup by done. case_decide as Hk.
  - intros [= <-]. unfold merged. cbn [prereqs].
    intros [Hp|Hp]%elem_of_app; apply Hsome; [left|by right].
    destruct (m !! toUpper (trim f0)) as [old|] eqn:Eold; simpl in Hp.
    + by apply (Hm (toUpper (trim f0)) old).
    + by apply elem_of_nil in Hp.
  - destruct (m !! k) as [e|] eqn:Ek.
    + intros [= <-] Hp. apply Hsome. left. by apply (Hm k e).
    + case_decide; [|done]. intros [= <-] Hp. simpl in Hp.
      by apply elem_of_nil in Hp.
Qed.

End load_fields_invariants.

(** What a call that returns [true] has done, and one that returns
    [false]. *)
Lemma loadCoursesFromFile_ok (fs : FileSystem) (filename : string)
    (c0 : gmap string Course) (w0 : list string) :
  ld_ok (loadCoursesFromFile fs filename c0 w0) = true →
  ∃ content, fs filename = Some content
    ∧ ld_courses (loadCoursesFromFile fs filename c0 w0)
      = (load_loop (getlines content) 0 ∅ []).1
    ∧ ld_warnings (loadCoursesFromFile fs filename c0 w0)
      = (load_loop (getlines content) 0 ∅ []).2.
Proof.
  unfold loadCoursesFromFile. destruct (fs filename) as [content|]; [|done].
  intros _. exists content. split; [done|].
  by destruct (load_loop (getlines content) 0 ∅ []).
Qed.

Lemma loadCoursesFromFile_fail (fs : FileSystem) (filename : string)
    (c0 : gmap string Course) (w0 : list string) :
  ld_ok (loadCoursesFromFile fs filename c0 w0) = false →
  fs filename = None ∧ ld_courses (loadCoursesFromFile fs filename c0 w0) = c0.
Proof.
  unfold loadCoursesFromFile. destruct (fs filename) as [content|]; [|done].
  by destruct (load_loop (getlines content) 0 ∅ []).
Qed.

(** A load that returned [true]. *)
Section loaded.
Context (fs : FileSystem) (filename : string).
Context (c0 : gmap string Course) (w0 : list string).
Hypothesis Hok : ld_ok (loadCoursesFromFile fs filename c0 w0) = true.

Lemma loaded_inv (P : gmap string Course → Prop) :
  P ∅ →
  (∀ n fields m w, P m → P (load_fields n fields m w).1) →
  P (ld_courses (loadCoursesFromFile fs filename c0 w0)).
Proof.
  intros H0 Hstep.
  destruct (loadCoursesFromFile_ok fs filename c0 w0 Hok) as (content & _ & -> & _).
  by apply load_loop_inv.
Qed.

Lemma loaded_keys_are_ids :
  keys_are_ids (ld_courses (loadCoursesFromFile fs filename c0 w0)).
Proof.
  apply (loaded_inv keys_are_ids); [done|]. intros. by apply load_fields_keys_are_ids.
Qed.

Lemma loaded_keys_upper :
  keys_upper (ld_courses (loadCoursesFromFile fs filename c0 w0)).
Proof.
  apply (loaded_inv keys_upper); [done|]. intros. by apply load_fields_keys_upper.
Qed.

Lemma loaded_prereqs_closed :
  prereqs_closed (ld_courses (loadCoursesFromFile fs filename c0 w0)).
Proof.
  apply (loaded_inv prereqs_closed); [done|]. intros. by apply load_fields_prereqs_closed.
Qed.

End loaded.

(** Whatever loads were made since the program started, the catalog
    satisfies the invariants: a load that fails keeps the catalog. *)
Lemma run_loads_inv (loads : list (FileSystem * string)) :
  ∀ app,
    keys_are_ids (courses app) ∧ keys_upper (courses app)
    ∧ prereqs_closed (courses app) →
    keys_are_ids (courses (run_loads loads app))
    ∧ keys_upper (courses (run_loads loads app))
    ∧ prereqs_closed (courses (run_loads loads app)).
Proof.
  induction loads as [|[fs filenameLine] rest IH]; intros app Happ; [done|].
  cbn [run_loads]. apply IH. unfold menu_load.
  destruct (is_empty (trim filenameLine)); [done|].
  destruct (ld_ok (loadCoursesFromFile fs (trim filenameLine) (courses app) []))
    eqn:Hok; cbn [st_app courses].
  - split_and!;
      [by apply loaded_keys_are_ids|by apply loaded_keys_upper
      |by apply loaded_prereqs_closed].
  - by apply loadCoursesFromFile_fail in Hok as [_ ->].
Qed.

Lemma run_loads_init (loads : list (FileSystem * string)) :
  keys_are_ids (courses (run_loads loads app_init))
  ∧ keys_upper (courses (run_loads loads app_init))
  ∧ prereqs_closed (courses (run_loads loads app_init)).
Proof. by apply run_loads_inv. Qed.

(** ** The claims on the catalog builder *)

(** C2. After a load that returns success, every identifier in the
    prerequisite list of any course is a key of the catalog; the entry
    carries that identifier, and is either a record with a title or an entry
    with an empty title, so the lookup of a prerequisite never misses. *)
Theorem loaded_prereqs_resolve (fs : FileSystem) (filename : string)
    (c0 : gmap string Course) (w0 : list string) (k p : string) (c : Course) :
  let r := loadCoursesFromFile fs filename c0 w0 in
  ld_ok r = true →
  ld_courses r !! k = Some c →
  p ∈ prereqs c →
  ∃ e, ld_courses r !! p = Some e ∧ id e = p ∧ (title e ≠ "" ∨ title e = "").
Proof.
  intros r Hok Hk Hp.
  destruct (loaded_prereqs_closed fs filename c0 w0 Hok k c p Hk Hp) as [e He].
  exists e. split; [done|]. split.
  - by apply (loaded_keys_are_ids fs filename c0 w0 Hok).
  - destruct (decide (title e = "")); auto.
Qed.

Lemma loaded_prereqs_resolve_witness :
  ∃ e, sample_catalog !! "MATH201" = Some e ∧ id e = "MATH201"
       ∧ (title e ≠ "" ∨ title e = "").
Proof.
  apply (loaded_prereqs_resolve sample_fs "courses.csv" ∅ [] "CSCI200" "MATH201"
           (mkCourse "CSCI200" "Data" ["CSCI100"; "MATH201"])).
  - reflexivity.
  - reflexivity.
  - apply list_elem_of_In. simpl. auto.
Defined.

(** C3. When the file cannot be opened, [loadCoursesFromFile] returns
    [false] and leaves the catalog and the warnings as they were, and option
    1 of the menu then clears [dataLoaded] while keeping the catalog. When
    the file can be opened, the call returns [true], option 1 sets
    [dataLoaded], and the catalog and the warnings it leaves do not depend
    on those it was given: they are those built from the file alone. *)
Theorem load_failure_keeps_catalog (fs : FileSystem) (filenameLine : string)
    (app : AppState) (w0 : list string) :
  let filename := trim filenameLine in
  filename ≠ "" →
  (fs filename = None →
     ld_ok (loadCoursesFromFile fs filename (courses app) w0) = false
     ∧ ld_courses (loadCoursesFromFile fs filename (courses app) w0) = courses app
     ∧ ld_warnings (loadCoursesFromFile fs filename (courses app) w0) = w0
     ∧ st_app (menu_load fs filenameLine app) = mkApp (courses app) false)
  ∧ (∀ content, fs filename = Some content →
       ld_ok (loadCoursesFromFile fs filename (courses app) w0) = true
       ∧ (ld_courses (loadCoursesFromFile fs filename (courses app) w0),
          ld_warnings (loadCoursesFromFile fs filename (courses app) w0))
         = load_loop (getlines content) 0 ∅ []
       ∧ st_app (menu_load fs filenameLine app)
         = mkApp (load_loop (getlines content) 0 ∅ []).1 true).
Proof.
  intros filename Hne%is_empty_false. split.
  - intros Hfs. unfold menu_load. fold filename. rewrite Hne.
    unfold loadCoursesFromFile. rewrite Hfs. by destruct app.
  - intros content Hfs. unfold menu_load. fold filename. rewrite Hne.
    unfold loadCoursesFromFile. rewrite Hfs.
    by destruct (load_loop (getlines content) 0 ∅ []).
Qed.

Lemma load_failure_keeps_catalog_witness :
  st_app (menu_load sample_fs " missing.csv " (mkApp sample_catalog true))
  = mkApp sample_catalog false
  ∧ st_app (menu_load sample_fs "courses.csv" (mkApp small_catalog true))
    = mkApp (load_loop (getlines sample_csv) 0 ∅ []).1 true.
Proof.
  split.
  - pose proof (load_failure_keeps_catalog sample_fs " missing.csv "
                  (mkApp sample_catalog true) []) as H.
    destruct H as [H _]; [discriminate|].
    destruct H as (_ & _ & _ & H); [reflexivity|]. cbn [courses] in H. exact H.
  - pose proof (load_failure_keeps_catalog sample_fs "courses.csv"
                  (mkApp small_catalog true) []) as H.
    destruct H as [_ H]; [discriminate|].
    destruct (H sample_csv) as (_ & _ & H'); [reflexivity|]. exact H'.
Defined.

(** C9. Loading the same file content again, on top of what the first load
    left, gives the same catalog and the same warnings: identifiers, titles
    and prerequisite sequences are those of the first load. *)
Theorem load_twice_same (fs1 fs2 : FileSystem) (name1 name2 content : string)
    (c0 : gmap string Course) (w0 : list string) :
  fs1 name1 = Some content →
  fs2 name2 = Some content →
  let r1 := loadCoursesFromFile fs1 name1 c0 w0 in
  let r2 := loadCoursesFromFile fs2 name2 (ld_courses r1) (ld_warnings r1) in
  ld_ok r1 = true ∧ ld_ok r2 = true
  ∧ ld_courses r2 = ld_courses r1
  ∧ ld_warnings r2 = ld_warnings r1
  ∧ ∀ k, ld_courses r2 !! k = ld_courses r1 !! k.
Proof.
  intros H1 H2. unfold loadCoursesFromFile. rewrite H1, H2.
  by destruct (load_loop (getlines content) 0 ∅ []).
Qed.

Lemma load_twice_same_witness :
  let r1 := loadCoursesFromFile sample_fs "courses.csv" ∅ [] in
  let r2 := loadCoursesFromFile sample_fs "courses.csv" (ld_courses r1) (ld_warnings r1) in
  ld_ok r1 = true ∧ ld_ok r2 = true
  ∧ ld_courses r2 = ld_courses r1
  ∧ ld_warnings r2 = ld_warnings r1
  ∧ ∀ k, ld_courses r2 !! k = ld_courses r1 !! k.
Proof.
  apply (load_twice_same sample_fs sample_fs "courses.csv" "courses.csv" sample_csv);
    reflexivity.
Defined.

Lemma parseCSVLine_two_fields (line f0 f1 : string) (rest : list string) :
  parseCSVLine line = f0 :: f1 :: rest → is_empty (trim line) = false.
Proof.
  intros Hp. apply is_empty_false. intros Hb.
  by rewrite (parseCSVLine_blank line Hb) in Hp.
Qed.

(** C8. For a line whose identifier [cid] is not empty, the entry of key
    [cid] is the one already there when there is one (for instance a
    placeholder), a fresh one otherwise. Its title becomes the title field of
    the line, which is trimmed, when that field is not empty, and stays what
    it was when the field is empty, in which case a warning naming the line
    and the course is recorded; the prerequisite identifiers of the line are
    appended to those the entry had. The other entries keep their record. *)
Theorem load_line_reuses_entry (n : N) (line f0 f1 : string) (rest : list string)
    (m : gmap string Course) (w : list string) :
  parseCSVLine line = f0 :: f1 :: rest →
  toUpper (trim f0) ≠ "" →
  let cid := toUpper (trim f0) in
  let old := default Course_default (m !! cid) in
  let m' := (load_line n line m w).1 in
  let w' := (load_line n line m w).2 in
  trim f1 = f1
  ∧ m' !! cid
    = Some (mkCourse cid (if is_empty f1 then title old else f1)
              (prereqs old ++ prereq_ids rest))
  ∧ (f1 = "" → ∀ c, m !! cid = Some c →
       ∃ c', m' !! cid = Some c' ∧ title c' = title c
             ∧ prereqs c' = prereqs c ++ prereq_ids rest)
  ∧ w' = (if is_empty f1
          then w ++ ["Line " +:+ to_string n +:+ " has empty title for course " +:+ cid]
          else w)
  ∧ (∀ k e, k ≠ cid → m !! k = Some e → m' !! k = Some e).
Proof.
  intros Hp Hcid cid old m' w'.
  assert (load_line n line m w = load_fields n (f0 :: f1 :: rest) m w) as Hline.
  { unfold load_line. by rewrite (parseCSVLine_two_fields line f0 f1 rest Hp), Hp. }
  assert (m' !! cid = Some (merged m cid f1 rest)) as Hself.
  { unfold m'. rewrite Hline, load_fields_lookup by done. by rewrite decide_True. }
  split_and!.
  - apply (parseCSVLine_trimmed line). rewrite Hp. apply elem_of_cons. right.
    apply elem_of_cons. by left.
  - done.
  - intros -> c Hc. eexists. split; [done|]. unfold merged. by rewrite Hc.
  - unfold w'. rewrite Hline. by apply load_fields_warnings.
  - intros k e Hk He. unfold m'. rewrite Hline, load_fields_lookup by done.
    rewrite decide_False by done. by rewrite He.
Qed.

Lemma load_line_reuses_entry_witness :
  let m : gmap string Course :=
    {["CSCI200" := mkCourse "CSCI200" "Data" ["CSCI100"]]} in
  (load_line 7 "csci200 , ,math201, csci100" m []).1 !! "CSCI200"
  = Some (mkCourse "CSCI200" "Data" ["CSCI100"; "MATH201"; "CSCI100"])
  ∧ (load_line 7 "csci200 , ,math201, csci100" m []).2
    = ["Line 7 has empty title for course CSCI200"].
Proof.
  intros m.
  pose proof (load_line_reuses_entry 7 "csci200 , ,math201, csci100"
                "csci200" "" ["math201"; "csci100"] m []) as H.
  destruct H as (_ & H1 & _ & H2 & _); [reflexivity|discriminate|].
  split; [exact H1|exact H2].
Defined.

(** *** Prerequisite fields that trim to nothing *)

Lemma load_prereqs_drop_empty (cid f : string) (pre post : list string)
    (m : gmap string Course) :
  trim f = "" →
  load_prereqs cid (pre ++ f :: post) m = load_prereqs cid (pre ++ post) m.
Proof.
  intros Hf. revert m. induction pre as [|g pre IH]; intros m.
  - cbn [app load_prereqs]. by rewrite Hf.
  - cbn [app load_prereqs]. destruct (is_empty (toUpper (trim g))); by rewrite IH.
Qed.

Lemma load_fields_drop_empty (n : N) (f0 f1 f : string) (pre post : list string)
    (m : gmap string Course) (w : list string) :
  trim f = "" →
  load_fields n (f0 :: f1 :: pre ++ f :: post) m w
  = load_fields n (f0 :: f1 :: pre ++ post) m w.
Proof.
  intros Hf. cbn [load_fields].
  destruct (is_empty (toUpper (trim f0))); [done|].
  by rewrite load_prereqs_drop_empty.
Qed.

Lemma load_line_drop_empty (n : N) (line line' : string) (fields pre post : list string)
    (m : gmap string Course) (w : list string) :
  2 ≤ length fields →
  parseCSVLine line = fields ++ pre ++ post →
  parseCSVLine line' = fields ++ pre ++ "" :: post →
  load_line n line' m w = load_line n line m w.
Proof.
  intros Hlen Hp Hp'.
  destruct fields as [|f0 [|f1 rest]]; [simpl in Hlen; lia..|].
  unfold load_line.
  rewrite (parseCSVLine_two_fields line f0 f1 (rest ++ pre ++ post)) by done.
  rewrite (parseCSVLine_two_fields line' f0 f1 (rest ++ pre ++ "" :: post)) by done.
  rewrite Hp, Hp'. cbn [app]. rewrite !(assoc_L (++)).
  by apply load_fields_drop_empty.
Qed.

(** C10. After a load that returns success, and more generally whatever
    loads, successful or not, were made since the program started, the [id]
    field of every entry of the catalog is its key, and the key is left
    unchanged by [toUpper] and has no lower case letter; this holds for
    records with a title and for placeholders alike. A prerequisite field
    that trims to nothing is dropped: the catalog and the warnings are those
    of the same fields without it, so nothing is appended, no placeholder is
    created and no warning is recorded. This is the case of a comma that
    ends a line, and of two commas in a row. *)
Theorem loaded_ids_are_upper_keys :
  (∀ (fs : FileSystem) (filename : string) (c0 : gmap string Course)
     (w0 : list string) (k : string) (c : Course),
     let r := loadCoursesFromFile fs filename c0 w0 in
     ld_ok r = true → ld_courses r !! k = Some c →
     id c = k ∧ toUpper k = k ∧ all_chars (λ ch, negb (is_lower ch)) k = true)
  ∧ (∀ (loads : list (FileSystem * string)) (k : string) (c : Course),
       courses (run_loads loads app_init) !! k = Some c →
       id c = k ∧ toUpper k = k ∧ all_chars (λ ch, negb (is_lower ch)) k = true)
  ∧ (∀ (n : N) (f0 f1 f : string) (pre post : list string)
       (m : gmap string Course) (w : list string),
       trim f = "" →
       load_fields n (f0 :: f1 :: pre ++ f :: post) m w
       = load_fields n (f0 :: f1 :: pre ++ post) m w)
  ∧ (∀ (n : N) (line : string) (m : gmap string Course) (w : list string),
       closed line = true → 2 ≤ length (parseCSVLine line) →
       load_line n (line +:+ String comma "") m w = load_line n line m w)
  ∧ (∀ (n : N) (a b : string) (m : gmap string Course) (w : list string),
       closed a = true → 2 ≤ length (parseCSVLine a) →
       load_line n (a +:+ String comma (String comma b)) m w
       = load_line n (a +:+ String comma b) m w).
Proof.
  split_and!.
  - intros fs filename c0 w0 k c r Hok Hk.
    destruct (loaded_keys_upper fs filename c0 w0 Hok k c Hk) as [? ?].
    split; [|done]. by apply (loaded_keys_are_ids fs filename c0 w0 Hok).
  - intros loads k c Hk. destruct (run_loads_init loads) as (Hid & Hup & _).
    destruct (Hup k c Hk). split; [|done]. by apply Hid.
  - intros. by apply load_fields_drop_empty.
  - intros n line m w Hcl Hlen.
    apply (load_line_drop_empty n line _ (parseCSVLine line) [] []); [done| |].
    + by rewrite !(right_id_L [] (++)).
    + by rewrite parseCSVLine_comma.
  - intros n a b m w Hcl Hlen.
    apply (load_line_drop_empty n _ _ (parseCSVLine a) [] (parseCSVLine b)); [done|..].
    + by rewrite parseCSVLine_comma.
    + rewrite parseCSVLine_comma by done.
      change (parseCSVLine (String comma b))
        with (parseCSVLine ("" +:+ String comma b)).
      by rewrite (parseCSVLine_comma "" b).
Qed.

Lemma loaded_ids_are_upper_keys_witness :
  (∃ c, sample_catalog !! "MATH201" = Some c ∧ id c = "MATH201" ∧ title c = "")
  ∧ load_line 2 "csci200,Data,csci100," ∅ [] = load_line 2 "csci200,Data,csci100" ∅ []
  ∧ load_line 2 "csci200,Data,,csci100" ∅ [] = load_line 2 "csci200,Data,csci100" ∅ [].
Proof.
  pose proof loaded_ids_are_upper_keys as (Hload & _ & _ & Htrail & Hdouble).
  split_and!.
  - exists (placeholder "MATH201"). split; [reflexivity|]. split; [|reflexivity].
    apply (Hload sample_fs "courses.csv" ∅ [] "MATH201" (placeholder "MATH201"));
      reflexivity.
  - apply (Htrail 2%N "csci200,Data,csci100"); [reflexivity|vm_compute; lia].
  - apply (Hdouble 2%N "csci200,Data" "csci100"); [reflexivity|vm_compute; lia].
Defined.

(** *** The loop over the lines *)

Lemma load_loop_app (pre post : list string) :
  ∀ (n : N) (m : gmap string Course) (w : list string),
    load_loop (pre ++ post) n m w
    = load_loop post (Nat.iter (length pre) size_t_incr n)
        (load_loop pre n m w).1 (load_loop pre n m w).2.
Proof.
  induction pre as [|l pre IH]; intros n m w; [done|].
  cbn [app load_loop length].
  destruct (load_line (size_t_incr n) l m w) as [m' w'].
  by rewrite IH, Nat.iter_succ_r.
Qed.

Lemma iter_size_t_incr (k : nat) :
  (N.of_nat k < size_t_modulus)%N → Nat.iter k size_t_incr 0%N = N.of_nat k.
Proof.
  induction k as [|k IH]; [done|]. intros Hk. rewrite Nat.iter_succ.
  rewrite IH by lia. unfold size_t_incr. rewrite N.mod_small; lia.
Qed.

Lemma load_loop_snoc (pre : list string) (line : string) :
  (N.of_nat (length pre) + 1 < size_t_modulus)%N →
  load_loop (pre ++ [line]) 0 ∅ []
  = load_line (N.of_nat (length pre) + 1) line
      (load_loop pre 0 ∅ []).1 (load_loop pre 0 ∅ []).2.
Proof.
  intros Hn. rewrite load_loop_app, iter_size_t_incr by lia.
  cbn [load_loop]. unfold size_t_incr. rewrite N.mod_small by lia.
  by destruct (load_line _ _ _ _).
Qed.

(** C4. Line number [length pre + 1] of a file that was opened, in a file
    of fewer than [2^64] lines: when it is blank after trimming, the catalog
    and the warnings stay as they were; when it is not blank and has fewer
    than two fields, the catalog stays as it was and one warning naming the
    line number is added; when it has two fields or more and its first field
    trims to nothing, the catalog stays as it was and one warning on the
    empty course ID, naming the line number, is added. In every case the
    loop goes on with the lines that follow, and the load returns [true]. *)
Theorem load_skips_lines (fs : FileSystem) (filename content : string)
    (c0 : gmap string Course) (w0 : list string)
    (pre : list string) (line : string) (post : list string) :
  fs filename = Some content →
  getlines content = pre ++ line :: post →
  (N.of_nat (length pre) + 1 < size_t_modulus)%N →
  let before := load_loop pre 0 ∅ [] in
  let after := load_loop (pre ++ [line]) 0 ∅ [] in
  let num := to_string (N.of_nat (length pre) + 1) in
  let r := loadCoursesFromFile fs filename c0 w0 in
  (trim line = "" → after = before)
  ∧ (trim line ≠ "" → length (parseCSVLine line) < 2 →
       after = (before.1,
                before.2 ++ ["Line " +:+ num +:+ " skipped: fewer than 2 fields"]))
  ∧ (∀ f0 rest, parseCSVLine line = f0 :: rest → rest ≠ [] → trim f0 = "" →
       after = (before.1,
                before.2 ++ ["Line " +:+ num +:+ " skipped: empty course ID"]))
  ∧ ld_ok r = true
  ∧ (ld_courses r, ld_warnings r)
    = load_loop post (N.of_nat (length pre) + 1) after.1 after.2.
Proof.
  intros Hfs Hlines Hn before after num r.
  assert (after = load_line (N.of_nat (length pre) + 1) line before.1 before.2)
    as Hafter by (by apply load_loop_snoc).
  split_and!.
  - intros Hb. rewrite Hafter. unfold load_line. rewrite Hb. simpl.
    by destruct before.
  - intros Hb%is_empty_false Hlen. rewrite Hafter. unfold load_line. rewrite Hb.
    destruct (parseCSVLine line) as [|f0 [|f1 rest]]; [done..|simpl in Hlen; lia].
  - intros f0 rest Hp Hrest H0. rewrite Hafter. unfold load_line.
    destruct rest as [|f1 rest]; [done|].
    rewrite (parseCSVLine_two_fields line f0 f1 rest Hp), Hp.
    cbn [load_fields]. by rewrite H0.
  - unfold r, loadCoursesFromFile. rewrite Hfs.
    by destruct (load_loop (getlines content) 0 ∅ []).
  - unfold r, loadCoursesFromFile. rewrite Hfs, Hlines.
    replace (pre ++ line :: post) with ((pre ++ [line]) ++ post)
      by (by rewrite <- (assoc_L (++))).
    rewrite (load_loop_app (pre ++ [line]) post), iter_size_t_incr
      by (rewrite length_app; simpl; lia).
    fold after. rewrite length_app. cbn [length].
    replace (N.of_nat (length pre + 1)) with (N.of_nat (length pre) + 1)%N by lia.
    by destruct (load_loop post _ _ _).
Qed.

Lemma load_skips_lines_witness :
  load_loop ["csci100,Intro"; "csci200, Data ,csci100, math201"; ",oops"] 0 ∅ []
  = ((load_loop ["csci100,Intro"; "csci200, Data ,csci100, math201"] 0 ∅ []).1,
     ["Line 3 skipped: empty course ID"])
  ∧ ld_ok (loadCoursesFromFile sample_fs "courses.csv" ∅ []) = true.
Proof.
  pose proof (load_skips_lines sample_fs "courses.csv" sample_csv ∅ []
                ["csci100,Intro"; "csci200, Data ,csci100, math201"] ",oops"
                ["justone"; ""; "CSCI300,,csci200,csci200,"; "csci400,Last,zzz,csci100"])
    as H.
  destruct H as (_ & _ & Hid & Hok & _); [reflexivity|reflexivity|reflexivity|].
  split; [|exact Hok].
  apply (Hid "" ["oops"]); [reflexivity|discriminate|reflexivity].
Defined.

(** ** The claims on the query layer *)

Lemma print_prereqs_lines (courses : gmap string Course) (pids : list string) :
  ∀ cout, print_prereqs courses pids cout = cout ++ (prereq_line courses <$> pids).
Proof.
  induction pids as [|pid rest IH]; intros cout.
  - simpl. by rewrite (right_id_L [] (++)).
  - cbn [print_prereqs]. rewrite IH, <- (assoc_L (++)). done.
Qed.

(** C5. [printCourseInfo] looks up the query trimmed and uppercased. A query
    that trims to nothing, such as one made of white space only, gets the
    empty course ID error; a query that does not, and whose normalised form
    has no entry or an entry with an empty title, gets the not found
    message on the normalised form; the two messages differ. Option 3 of the
    menu leaves the catalog and the loaded flag as they were. *)
Theorem printCourseInfo_errors (courses : gmap string Course) (queryRaw : string)
    (app : AppState) :
  let query := toUpper (trim queryRaw) in
  (trim queryRaw = "" →
     printCourseInfo courses queryRaw = ["Error: empty course ID."])
  ∧ (all_chars isspace queryRaw = true →
       printCourseInfo courses queryRaw = ["Error: empty course ID."])
  ∧ (trim queryRaw ≠ "" →
       (courses !! query = None ∨ ∃ c, courses !! query = Some c ∧ title c = "") →
       printCourseInfo courses queryRaw = ["Course not found: " +:+ query])
  ∧ ["Error: empty course ID."] ≠ ["Course not found: " +:+ query]
  ∧ st_app (menu_print queryRaw app) = app.
Proof.
  intros query. split_and!.
  - intros Hq. unfold printCourseInfo. by rewrite Hq.
  - intros Hq%trim_all_space. unfold printCourseInfo. by rewrite Hq.
  - intros Hq Hmiss. unfold printCourseInfo. fold query.
    assert (is_empty query = false) as ->.
    { unfold query. rewrite is_empty_toUpper. by apply is_empty_false. }
    destruct Hmiss as [->|(c & -> & Hc)]; [done|]. by rewrite Hc.
  - intros [=].
  - unfold menu_print. by destruct (dataLoaded app).
Qed.

Lemma printCourseInfo_errors_witness :
  printCourseInfo sample_catalog "   " = ["Error: empty course ID."]
  ∧ printCourseInfo sample_catalog "" = ["Error: empty course ID."]
  ∧ printCourseInfo sample_catalog " math201 " = ["Course not found: MATH201"]
  ∧ printCourseInfo sample_catalog "nope" = ["Course not found: NOPE"].
Proof.
  split_and!.
  - apply (printCourseInfo_errors sample_catalog "   " app_init). reflexivity.
  - apply (printCourseInfo_errors sample_catalog "" app_init). reflexivity.
  - apply (printCourseInfo_errors sample_catalog " math201 " app_init);
      [discriminate|].
    right. exists (placeholder "MATH201"). split; reflexivity.
  - apply (printCourseInfo_errors sample_catalog "nope" app_init);
      [discriminate|]. left. reflexivity.
Defined.

(** C6. For a query whose normalised form is the key of a course with a
    title, [printCourseInfo] prints a blank line, the identifier and title
    of the course, its prerequisites and a blank line. Without
    prerequisites it prints that there are none. Otherwise it prints one
    line per element of the stored sequence, in that order, repeats
    included: the [i]-th line shows the identifier and title of the entry of
    the [i]-th prerequisite when that entry has a title, and the
    prerequisite identifier with the title unknown marker when the entry has
    an empty title or is missing. Each line depends on the entry of that
    prerequisite only: the prerequisites of a prerequisite are not shown. *)
Theorem printCourseInfo_prereqs (courses : gmap string Course) (queryRaw : string)
    (c : Course) :
  toUpper (trim queryRaw) ≠ "" →
  courses !! toUpper (trim queryRaw) = Some c →
  title c ≠ "" →
  ∃ body : list string,
    printCourseInfo courses queryRaw
    = [""; id c +:+ ": " +:+ title c] ++ body ++ [""]
    ∧ (prereqs c = [] → body = ["Prerequisites: None"])
    ∧ (prereqs c ≠ [] →
         ∃ lines, body = "Prerequisites:" :: lines
           ∧ length lines = length (prereqs c)
           ∧ ∀ (i : nat) (pid : string), prereqs c !! i = Some pid →
               (∀ p, courses !! pid = Some p → title p ≠ "" →
                  lines !! i = Some ("  - " +:+ id p +:+ ": " +:+ title p))
               ∧ ((courses !! pid = None
                   ∨ ∃ p, courses !! pid = Some p ∧ title p = "") →
                  lines !! i = Some ("  - " +:+ pid +:+ ": Title unknown"))).
Proof.
  intros Hq%is_empty_false Hc Ht%is_empty_false.
  unfold printCourseInfo. rewrite Hq, Hc, Ht.
  destruct (prereqs c) as [|pid0 rest] eqn:Hps.
  - exists ["Prerequisites: None"]. split; [done|]. split; done.
  - rewrite print_prereqs_lines.
    exists ("Prerequisites:" :: (prereq_line courses <$> pid0 :: rest)).
    split; [done|]. split; [done|]. intros _.
    eexists. split; [done|]. split; [by rewrite length_fmap|].
    intros i pid Hi. rewrite list_lookup_fmap, Hi. cbn [fmap option_fmap option_map].
    unfold prereq_line. split.
    + intros p -> Hp%is_empty_false. by rewrite Hp.
    + intros [->|(p & -> & ->)]; done.
Qed.

Lemma printCourseInfo_prereqs_witness :
  ∃ body lines : list string,
    printCourseInfo small_catalog " csci300" = [""; "CSCI300: Foo"] ++ body ++ [""]
    ∧ body = "Prerequisites:" :: lines
    ∧ length lines = 3
    ∧ lines !! 0 = Some "  - CSCI101: Bar"
    ∧ lines !! 1 = Some "  - MATH201: Title unknown"
    ∧ lines !! 2 = Some "  - CSCI101: Bar".
Proof.
  destruct (printCourseInfo_prereqs small_catalog " csci300"
              (mkCourse "CSCI300" "Foo" ["CSCI101"; "MATH201"; "CSCI101"]))
    as (body & Hout & _ & Hlines); [discriminate|reflexivity|discriminate|].
  destruct Hlines as (lines & Hbody & Hlen & Hnth); [discriminate|].
  exists body, lines. split_and!; [exact Hout|exact Hbody|exact Hlen|..].
  - apply (proj1 (Hnth 0 "CSCI101" eq_refl) (mkCourse "CSCI101" "Bar" []));
      [reflexivity|discriminate].
  - apply (proj2 (Hnth 1 "MATH201" eq_refl)). right.
    exists (placeholder "MATH201"). split; reflexivity.
  - apply (proj1 (Hnth 2 "CSCI101" eq_refl) (mkCourse "CSCI101" "Bar" []));
      [reflexivity|discriminate].
Defined.

(** *** The sorted listing *)

(** [operator<=] on strings is the lexicographic order on bytes. *)
Lemma str_le_lex :
  (∀ s, String.le "" s)
  ∧ (∀ a s, ¬ String.le (String a s) "")
  ∧ (∀ a s b t, String.le (String a s) (String b t)
       ↔ (N_of_ascii a < N_of_ascii b)%N ∨ (a = b ∧ String.le s t)).
Proof.
  split_and!.
  - by intros [|??].
  - intros a s. unfold String.le, String.leb. simpl. tauto.
  - intros a s b t. unfold String.le, String.leb. simpl.
    unfold Ascii.compare.
    destruct (N.compare_spec (N_of_ascii a) (N_of_ascii b)) as [Heq|Hlt|Hgt]; simpl.
    + apply (f_equal ascii_of_N) in Heq. rewrite !ascii_N_embedding in Heq.
      subst b. split; [by right|]. intros [?|[_ ?]]; [lia|done].
    + split; [by left|done].
    + split; [tauto|]. intros [?|[-> _]]; lia.
Qed.

Lemma collect_ids_filter (entries : list (string * Course)) :
  ∀ ids, collect_ids entries ids
         = ids ++ ((λ kv, id kv.2) <$> filter with_title entries).
Proof.
  induction entries as [|[k c] rest IH]; intros ids.
  - simpl. by rewrite (right_id_L [] (++)).
  - cbn [collect_ids]. rewrite IH, filter_cons.
    destruct (decide (with_title (k, c))) as [H|H]; unfold with_title in H;
      cbn [snd] in H.
    + rewrite H. by rewrite <- (assoc_L (++)).
    + apply not_false_is_true in H. by rewrite H.
Qed.

Lemma sorted_ids_perm (m : gmap string Course) :
  std_sort (collect_ids (in_key_order m) [])
  ≡ₚ (λ kv, id kv.2) <$> filter with_title (map_to_list m).
Proof.
  unfold std_sort, in_key_order.
  by rewrite merge_sort_Permutation, collect_ids_filter, merge_sort_Permutation.
Qed.

Lemma sorted_ids_elem (m : gmap string Course) (i : string) :
  keys_are_ids m →
  i ∈ std_sort (collect_ids (in_key_order m) [])
  ↔ ∃ c, m !! i = Some c ∧ title c ≠ "".
Proof.
  intros Hm. rewrite sorted_ids_perm, list_elem_of_fmap. split.
  - intros ([k c] & -> & [Ht Hin]%list_elem_of_filter).
    apply elem_of_map_to_list in Hin. cbn [snd] in *.
    rewrite (Hm k c Hin). exists c. split; [done|]. by apply is_empty_false.
  - intros (c & Hc & Ht). exists (i, c). cbn [snd]. split; [by rewrite (Hm i c Hc)|].
    apply list_elem_of_filter. split; [by apply is_empty_false|].
    by apply elem_of_map_to_list.
Qed.

Lemma sorted_ids_NoDup (m : gmap string Course) :
  keys_are_ids m → NoDup (std_sort (collect_ids (in_key_order m) [])).
Proof.
  intros Hm. rewrite sorted_ids_perm. apply NoDup_fmap_2_strong.
  - intros [k1 c1] [k2 c2] [_ H1%elem_of_map_to_list]%list_elem_of_filter
      [_ H2%elem_of_map_to_list]%list_elem_of_filter Heq. cbn [snd] in Heq.
    rewrite (Hm k1 c1 H1), (Hm k2 c2 H2) in Heq. subst k2. congruence.
  - apply NoDup_filter, NoDup_map_to_list.
Qed.

Lemma print_ids_lines (m : gmap string Course) (ids : list string) :
  ∀ cout, (∀ i, i ∈ ids → is_Some (m !! i)) →
    print_ids m ids cout
    = Some (cout ++ ((λ i, i +:+ ", " +:+ title (default Course_default (m !! i)))
                       <$> ids)).
Proof.
  induction ids as [|i rest IH]; intros cout Hin.
  - simpl. by rewrite (right_id_L [] (++)).
  - cbn [print_ids]. destruct (Hin i) as [c Hc]; [apply elem_of_cons; by left|].
    rewrite Hc, IH.
    + cbn [fmap list_fmap]. rewrite Hc. cbn [default]. by rewrite <- (assoc_L (++)).
    + intros j Hj. apply Hin, elem_of_cons. by right.
Qed.

(** C7. On a catalog whose entries carry their key as identifier, as the
    catalog does after any sequence of loads, [printSortedCourseList]
    prints, between its heading and a blank line, one line per course with a
    title: the identifier, a comma and the title. The identifiers listed are
    exactly those of the entries with a non-empty title, each once, in
    ascending lexicographic order on bytes whatever the order of insertion.
    Option 2 of the menu leaves the catalog as it was, and taken again
    prints the same. On the catalog of the example the listing is CSCI101
    then CSCI300. *)
Theorem printSortedCourseList_sorted :
  (∀ m : gmap string Course, keys_are_ids m →
     ∃ listing : list (string * string),
       printSortedCourseList m
       = Some ([""; "Computer Science Course List"; "----------------------------"]
               ++ ((λ it, it.1 +:+ ", " +:+ it.2) <$> listing) ++ [""])
       ∧ (∀ i t, (i, t) ∈ listing ↔ ∃ c, m !! i = Some c ∧ title c = t ∧ t ≠ "")
       ∧ Sorted String.le (listing.*1)
       ∧ NoDup (listing.*1))
  ∧ (∀ loads : list (FileSystem * string),
       keys_are_ids (courses (run_loads loads app_init)))
  ∧ (∀ (app : AppState) (step : Step), menu_list app = Some step →
       st_app step = app ∧ menu_list (st_app step) = Some step)
  ∧ printSortedCourseList listing_catalog
    = Some [""; "Computer Science Course List"; "----------------------------";
            "CSCI101, Bar"; "CSCI300, Foo"; ""]
  ∧ ((∀ s, String.le "" s)
     ∧ (∀ a s, ¬ String.le (String a s) "")
     ∧ (∀ a s b t, String.le (String a s) (String b t)
          ↔ (N_of_ascii a < N_of_ascii b)%N ∨ (a = b ∧ String.le s t))).
Proof.
  split_and!; [|intros loads; apply run_loads_init|
    |reflexivity
    |apply str_le_lex|apply str_le_lex|apply str_le_lex].
  - intros m Hm.
    set (ids := std_sort (collect_ids (in_key_order m) [])).
    exists ((λ i, (i, title (default Course_default (m !! i)))) <$> ids).
    assert (((λ i, (i, title (default Course_default (m !! i)))) <$> ids).*1 = ids)
      as Hfst.
    { rewrite <- list_fmap_compose. apply list_fmap_id. }
    rewrite Hfst. split_and!.
    + unfold printSortedCourseList. fold ids. rewrite print_ids_lines.
      * cbn [mbind option_bind]. rewrite <- list_fmap_compose.
        by rewrite <- (assoc_L (++)).
      * intros i (c & Hc & _)%sorted_ids_elem; [by eexists|done].
    + intros i t. rewrite list_elem_of_fmap. split.
      * intros (j & [= -> ->] & (c & Hc & Ht)%sorted_ids_elem); [|done].
        exists c. rewrite Hc. by cbn [default].
      * intros (c & Hc & <- & Ht). exists i. rewrite Hc. split; [done|].
        apply sorted_ids_elem; [done|]. eauto.
    + apply (Sorted_merge_sort String.le).
    + by apply sorted_ids_NoDup.
  - intros app step. unfold menu_list. destruct (dataLoaded app) eqn:Hl.
    + destruct (printSortedCourseList (courses app)) as [cout|] eqn:Hp; [|done].
      intros [= <-]. cbn [mbind option_bind st_app]. by rewrite Hl, Hp.
    + intros [= <-]. cbn [st_app]. by rewrite Hl.
Qed.

Lemma printSortedCourseList_sorted_witness :
  ∃ listing : list (string * string),
    printSortedCourseList sample_catalog
    = Some ([""; "Computer Science Course List"; "----------------------------"]
            ++ ((λ it, it.1 +:+ ", " +:+ it.2) <$> listing) ++ [""])
    ∧ Sorted String.le (listing.*1)
    ∧ ("CSCI200", "Data") ∈ listing
    ∧ ∀ t, ("MATH201", t) ∉ listing.
Proof.
  destruct (proj1 printSortedCourseList_sorted sample_catalog)
    as (listing & Hout & Hin & Hsorted & _).
  { apply (loaded_keys_are_ids sample_fs "courses.csv" ∅ []). reflexivity. }
  exists listing. split_and!; [exact Hout|exact Hsorted|..].
  - apply Hin. exists (mkCourse "CSCI200" "Data" ["CSCI100"; "MATH201"]).
    split; [reflexivity|]. split; [reflexivity|discriminate].
  - intros t (c & Hc & Ht & Hne)%Hin.
    assert (sample_catalog !! "MATH201" = Some (placeholder "MATH201")) as Hc'
      by reflexivity.
    rewrite Hc' in Hc. injection Hc as <-. apply Hne. rewrite <- Ht. reflexivity.
Defined.

(** * Further properties of the code *)

(** ** [trim] and [toUpper] *)

Lemma lstrip_decomp (s : string) :
  ∃ l, s = l +:+ lstrip s ∧ all_chars isspace l = true.
Proof.
  induction s as [|c s (l & Hl & Hsp)]; [by exists ""|]. cbn [lstrip].
  destruct (isspace c) eqn:Hc; [|by exists ""].
  exists (String c l). rewrite str_app_cons, <- Hl. cbn [all_chars].
  by rewrite Hc, Hsp.
Qed.

Lemma rstrip_decomp (s : string) :
  ∃ r, s = rstrip s +:+ r ∧ all_chars isspace r = true.
Proof.
  induction s as [|c s (r & Hr & Hsp)]; [by exists ""|]. cbn [rstrip].
  destruct (is_empty (rstrip s) && isspace c) eqn:E.
  - apply andb_true_iff in E as [He%is_empty_true Hc]. rewrite He in Hr.
    exists (String c s). split; [done|]. cbn [all_chars]. rewrite Hc.
    by rewrite Hr.
  - exists r. by rewrite str_app_cons, <- Hr.
Qed.

Lemma rstrip_back (s : string) (c : ascii) :
  back (rstrip s) = Some c → isspace c = false.
Proof.
  induction s as [|d s IH]; [done|]. cbn [rstrip].
  destruct (is_empty (rstrip s) && isspace d) eqn:E; [done|].
  destruct (rstrip s) as [|e r] eqn:Er.
  - simpl in *. by intros [= <-].
  - intros Hb. apply IH. exact Hb.
Qed.

Lemma all_chars_app (P : ascii → bool) (s t : string) :
  all_chars P (s +:+ t) = all_chars P s && all_chars P t.
Proof.
  induction s as [|c s IH]; [done|]. rewrite str_app_cons. cbn [all_chars].
  by rewrite IH, andb_assoc.
Qed.

Lemma lstrip_app (s t : string) :
  lstrip (s +:+ t) = if all_chars isspace s then lstrip t else lstrip s +:+ t.
Proof.
  induction s as [|c s IH]; [done|]. rewrite str_app_cons. cbn [lstrip all_chars].
  destruct (isspace c); [by rewrite IH|done].
Qed.

Lemma rstrip_all_space (s : string) : all_chars isspace s = true → rstrip s = "".
Proof.
  induction s as [|c s IH]; [done|]. cbn [all_chars rstrip].
  intros [Hc Hs]%andb_true_iff. by rewrite IH, Hc.
Qed.

Lemma rstrip_app_space (s ws : string) :
  all_chars isspace ws = true → rstrip (s +:+ ws) = rstrip s.
Proof.
  intros Hws. induction s as [|c s IH]; [by apply rstrip_all_space|].
  rewrite str_app_cons. cbn [rstrip]. by rewrite IH.
Qed.

Lemma trim_app_space_r (s ws : string) :
  all_chars isspace ws = true → trim (s +:+ ws) = trim s.
Proof.
  intros Hws. rewrite !trim_strip, lstrip_app.
  destruct (all_chars isspace s) eqn:Hs.
  - by rewrite (lstrip_all_space ws), (lstrip_all_space s).
  - by apply rstrip_app_space.
Qed.

Lemma trim_app_space_l (ws s : string) :
  all_chars isspace ws = true → trim (ws +:+ s) = trim s.
Proof. intros Hws. by rewrite !trim_strip, lstrip_app, Hws. Qed.

Lemma isspace_toupper (c : ascii) : isspace (toupper c) = isspace c.
Proof. by destruct c as [[] [] [] [] [] [] [] []]. Qed.

Lemma toUpper_app (s t : string) : toUpper (s +:+ t) = toUpper s +:+ toUpper t.
Proof.
  induction s as [|c s IH]; [done|]. rewrite str_app_cons. cbn [toUpper].
  by rewrite IH.
Qed.

Lemma lstrip_toUpper (s : string) : lstrip (toUpper s) = toUpper (lstrip s).
Proof.
  induction s as [|c s IH]; [done|]. cbn [toUpper lstrip].
  rewrite isspace_toupper. by destruct (isspace c).
Qed.

Lemma rstrip_toUpper (s : string) : rstrip (toUpper s) = toUpper (rstrip s).
Proof.
  induction s as [|c s IH]; [done|]. cbn [toUpper rstrip].
  rewrite IH, is_empty_toUpper, isspace_toupper.
  by destruct (is_empty (rstrip s) && isspace c).
Qed.

Lemma trim_toUpper (s : string) : trim (toUpper s) = toUpper (trim s).
Proof. by rewrite !trim_strip, lstrip_toUpper, rstrip_toUpper. Qed.

(** X1. [trim] removes white space at both ends and nothing else: the
    string is the result between a prefix and a suffix made of white space
    only, and the result neither starts nor ends with a white space
    character. The result is empty exactly when the string is made of white
    space only, and trimming again changes nothing. *)
Theorem trim_cuts_both_ends (s : string) :
  (∃ l r, s = l +:+ trim s +:+ r
          ∧ all_chars isspace l = true ∧ all_chars isspace r = true)
  ∧ (∀ c t, trim s = String c t → isspace c = false)
  ∧ (∀ c, back (trim s) = Some c → isspace c = false)
  ∧ (trim s = "" ↔ all_chars isspace s = true)
  ∧ trim (trim s) = trim s.
Proof.
  split_and!.
  - destruct (lstrip_decomp s) as (l & Hl & Hlsp).
    destruct (rstrip_decomp (lstrip s)) as (r & Hr & Hrsp).
    exists l, r. rewrite trim_strip, <- Hr. done.
  - intros c t. rewrite trim_strip.
    destruct (lstrip_head s) as [->|(d & r & -> & Hd)]; [done|].
    cbn [rstrip]. rewrite Hd, andb_false_r. by intros [= <- _].
  - intros c. rewrite trim_strip. apply rstrip_back.
  - split; [apply trim_empty_all_space|apply trim_all_space].
  - apply trim_idemp.
Qed.

(** X2. [toUpper] keeps the length, changes nothing in a string without
    lower case letters, leaves no lower case letter, is idempotent, goes
    through concatenation, and commutes with [trim]: white space is neither
    made nor removed. *)
Theorem toUpper_normalises (s t : string) :
  String.length (toUpper s) = String.length s
  ∧ (all_chars (λ ch, negb (is_lower ch)) s = true → toUpper s = s)
  ∧ all_chars (λ ch, negb (is_lower ch)) (toUpper s) = true
  ∧ toUpper (toUpper s) = toUpper s
  ∧ toUpper (s +:+ t) = toUpper s +:+ toUpper t
  ∧ trim (toUpper s) = toUpper (trim s).
Proof.
  split_and!.
  - induction s as [|c s IH]; [done|]. simpl. by rewrite IH.
  - induction s as [|c s IH]; [done|]. cbn [all_chars toUpper].
    intros [Hc Hs]%andb_true_iff. rewrite IH by done. f_equal.
    unfold toupper. unfold is_lower in Hc. apply negb_true_iff in Hc.
    by rewrite Hc.
  - apply toUpper_no_lower.
  - apply toUpper_idemp.
  - apply toUpper_app.
  - apply trim_toUpper.
Qed.

Lemma toUpper_normalises_witness :
  toUpper "CSCI-300 A" = "CSCI-300 A" ∧ toUpper " csci300 " = " CSCI300 ".
Proof.
  split.
  - destruct (toUpper_normalises "CSCI-300 A" "") as (_ & Hfix & _).
    apply Hfix. reflexivity.
  - destruct (toUpper_normalises " csci300 " "") as (_ & _ & _ & _ & _ & Htrim).
    reflexivity.
Defined.

(** X3. [printCourseInfo] does not depend on the case of the query nor on
    the white space around it: two queries with the same upper case form
    print the same, and so do a query and the same query between white
    space. *)
Theorem printCourseInfo_case_insensitive (courses : gmap string Course)
    (q1 q2 l r : string) :
  (toUpper q1 = toUpper q2 →
     printCourseInfo courses q1 = printCourseInfo courses q2)
  ∧ (all_chars isspace l = true → all_chars isspace r = true →
       printCourseInfo courses (l +:+ q1 +:+ r) = printCourseInfo courses q1).
Proof.
  split.
  - intros Hq. unfold printCourseInfo.
    by rewrite <- !trim_toUpper, Hq.
  - intros Hl Hr. unfold printCourseInfo.
    by rewrite trim_app_space_l, trim_app_space_r.
Qed.

Lemma printCourseInfo_case_insensitive_witness :
  printCourseInfo small_catalog "csci300" = printCourseInfo small_catalog "CsCi300"
  ∧ printCourseInfo small_catalog ("  " +:+ "csci300" +:+ " ")
    = printCourseInfo small_catalog "csci300".
Proof.
  split.
  - destruct (printCourseInfo_case_insensitive small_catalog "csci300" "CsCi300" "" "")
      as [Hcase _].
    apply Hcase. reflexivity.
  - destruct (printCourseInfo_case_insensitive small_catalog "csci300" "" "  " " ")
      as [_ Hpad].
    apply Hpad; reflexivity.
Defined.

Lemma trim_cuts_both_ends_witness :
  (∃ l r, "  a b  " = l +:+ trim "  a b  " +:+ r
          ∧ all_chars isspace l = true ∧ all_chars isspace r = true)
  ∧ isspace "a" = false.
Proof.
  destruct (trim_cuts_both_ends "  a b  ") as (Hcut & Hhead & _).
  split; [exact Hcut|]. apply (Hhead "a"%char " b"). reflexivity.
Defined.

(** ** More on [parseCSVLine] *)

Lemma space_plain (c : ascii) :
  isspace c = true → c ≠ dquote ∧ c ≠ comma.
Proof. destruct c as [[] [] [] [] [] [] [] []]; done. Qed.

Lemma scan_spaces (ws : string) :
  ∀ (fs : list string) (f : string) (inq : bool),
    all_chars isspace ws = true →
    scan ws (mkScan fs f inq) = mkScan fs (f +:+ ws) inq.
Proof.
  induction ws as [|c ws IH]; intros fs f inq Hws.
  - by rewrite str_app_nil_r.
  - cbn [all_chars] in Hws. apply andb_true_iff in Hws as [Hc Hws].
    destruct (space_plain c Hc) as [Hq Hk]. destruct inq.
    + rewrite scan_in_char, IH by done. by rewrite push_back_app.
    + rewrite scan_out_char, IH by done. by rewrite push_back_app.
Qed.

Lemma parseCSVLine_app_space (line ws : string) :
  all_chars isspace ws = true → parseCSVLine (line +:+ ws) = parseCSVLine line.
Proof.
  intros Hws. destruct ws as [|c ws]; [by rewrite str_app_nil_r|].
  pose proof Hws as Hws'. cbn [all_chars] in Hws'.
  apply andb_true_iff in Hws' as [Hc _].
  unfold parseCSVLine. rewrite scan_app_sep by apply (space_plain c Hc).
  destruct (scan line scan_init) as [fs f inq].
  rewrite scan_spaces by done. cbn [sc_fields sc_field].
  rewrite !fmap_app. cbn [fmap list_fmap]. by rewrite trim_app_space_r.
Qed.

Lemma scan_in_noquote (s : string) :
  ∀ (fs : list string) (f : string),
    all_chars (not_char dquote) s = true →
    scan s (mkScan fs f true) = mkScan fs (f +:+ s) true.
Proof.
  induction s as [|c s IH]; intros fs f Hs.
  - by rewrite str_app_nil_r.
  - cbn [all_chars] in Hs. apply andb_true_iff in Hs as [Hc Hs].
    apply negb_true_iff, Ascii.eqb_neq in Hc.
    rewrite scan_in_char, IH by done. by rewrite push_back_app.
Qed.

Lemma count_char_app (c : ascii) (s t : string) :
  count_char c (s +:+ t) = count_char c s + count_char c t.
Proof.
  induction s as [|d s IH]; [done|]. rewrite str_app_cons. cbn [count_char].
  rewrite IH. lia.
Qed.

Lemma scan_fields_count_len (n : nat) :
  ∀ (line : string) (st : ScanState),
    String.length line ≤ n →
    length (sc_fields st) ≤ length (sc_fields (scan line st))
    ∧ length (sc_fields (scan line st))
      ≤ length (sc_fields st) + count_char comma line.
Proof.
  induction n as [|n IH]; intros line st Hlen.
  { destruct line; [simpl; lia|simpl in Hlen; lia]. }
  destruct st as [fs f [|]]; cbn [sc_fields].
  - destruct (string_cases line)
      as [->|[[r ->]|[(r & -> & Hr)|(ch & r & -> & Hch)]]]; simpl in Hlen.
    + simpl. lia.
    + rewrite scan_in_quote_quote.
      destruct (IH r (mkScan fs (push_back f dquote) true)) as [H1 H2]; [lia|].
      cbn [sc_fields] in *. change (count_char comma (String dquote (String dquote r)))
        with (count_char comma r). lia.
    + rewrite scan_in_quote_end by done.
      destruct (IH r (mkScan fs f false)) as [H1 H2]; [lia|].
      cbn [sc_fields] in *. change (count_char comma (String dquote r))
        with (count_char comma r). lia.
    + rewrite scan_in_char by done.
      destruct (IH r (mkScan fs (push_back f ch) true)) as [H1 H2]; [lia|].
      cbn [sc_fields count_char] in *. lia.
  - destruct line as [|ch r]; [simpl; lia|]. simpl in Hlen.
    destruct (Ascii.eqb_spec ch dquote) as [->|Hq].
    { rewrite scan_out_quote.
      destruct (IH r (mkScan fs f true)) as [H1 H2]; [lia|].
      cbn [sc_fields] in *. change (count_char comma (String dquote r))
        with (count_char comma r). lia. }
    destruct (Ascii.eqb_spec ch comma) as [->|Hk].
    + rewrite scan_out_comma.
      destruct (IH r (mkScan (fs ++ [f]) "" false)) as [H1 H2]; [lia|].
      cbn [sc_fields] in *. rewrite length_app in *. cbn [length] in *.
      change (count_char comma (String comma r)) with (1 + count_char comma r). lia.
    + rewrite scan_out_char by done.
      destruct (IH r (mkScan fs (push_back f ch) false)) as [H1 H2]; [lia|].
      cbn [sc_fields count_char] in *. lia.
Qed.

Lemma scan_fields_count_plain (line : string) :
  ∀ (fs : list string) (f : string),
    all_chars (not_char dquote) line = true →
    length (sc_fields (scan line (mkScan fs f false)))
    = length fs + count_char comma line.
Proof.
  induction line as [|ch r IH]; intros fs f Hs; [simpl; lia|].
  cbn [all_chars] in Hs. apply andb_true_iff in Hs as [Hq Hs].
  apply negb_true_iff, Ascii.eqb_neq in Hq.
  destruct (Ascii.eqb_spec ch comma) as [->|Hk].
  - rewrite scan_out_comma, IH by done. rewrite length_app. cbn [length].
    change (count_char comma (String comma r)) with (1 + count_char comma r). lia.
  - rewrite scan_out_char, IH by done. cbn [count_char].
    apply Ascii.eqb_neq in Hk. rewrite Hk. lia.
Qed.

(** X4. [parseCSVLine] always returns at least one field, and at most one
    more than the line has commas; a line without quotes has exactly one
    more field than it has commas, and the empty line has one empty
    field. *)
Theorem parseCSVLine_field_count (line : string) :
  parseCSVLine line ≠ []
  ∧ 1 ≤ length (parseCSVLine line)
  ∧ length (parseCSVLine line) ≤ 1 + count_char comma line
  ∧ (all_chars (not_char dquote) line = true →
       length (parseCSVLine line) = 1 + count_char comma line)
  ∧ parseCSVLine "" = [""].
Proof.
  assert (length (parseCSVLine line)
          = length (sc_fields (scan line scan_init)) + 1) as Hlen.
  { unfold parseCSVLine. rewrite length_fmap, length_app. done. }
  destruct (scan_fields_count_len (String.length line) line scan_init) as [_ Hle];
    [done|]. cbn [scan_init sc_fields length] in Hle.
  split_and!.
  - intros Hnil. rewrite Hnil in Hlen. simpl in Hlen. lia.
  - lia.
  - lia.
  - intros Hplain. rewrite Hlen. unfold scan_init.
    rewrite scan_fields_count_plain by done. simpl. lia.
  - reflexivity.
Qed.

Lemma parseCSVLine_field_count_witness :
  length (parseCSVLine "csci200, Data ,csci100, math201") = 4.
Proof.
  destruct (parseCSVLine_field_count "csci200, Data ,csci100, math201")
    as (_ & _ & _ & Hplain & _).
  rewrite Hplain; reflexivity.
Defined.

(** X5. A quote that is never closed is tolerated: the field takes
    everything up to the end of the line, commas included. This holds for
    a line that starts with the quote, and for a quote that follows a
    top-level comma. *)
Theorem parseCSVLine_unterminated_quote (a s : string) :
  all_chars (not_char dquote) s = true →
  parseCSVLine (String dquote s) = [trim s]
  ∧ (closed a = true →
       parseCSVLine (a +:+ String comma (String dquote s))
       = parseCSVLine a ++ [trim s]).
Proof.
  intros Hs.
  assert (parseCSVLine (String dquote s) = [trim s]) as Hone.
  { unfold parseCSVLine, scan_init. by rewrite scan_out_quote, scan_in_noquote. }
  split; [done|]. intros Hcl. by rewrite parseCSVLine_comma, Hone.
Qed.

Lemma parseCSVLine_unterminated_quote_witness :
  parseCSVLine (String dquote "b, c") = ["b, c"]
  ∧ parseCSVLine ("a" +:+ String comma (String dquote "b, c")) = ["a"; "b, c"].
Proof.
  destruct (parseCSVLine_unterminated_quote "a" "b, c") as [H1 H2]; [reflexivity|].
  split; [exact H1|]. apply H2. reflexivity.
Defined.

(** X6. White space at the end of a line, a carriage return for instance,
    does not change the fields, whether the line ends inside a quoted
    region or not. *)
Theorem parseCSVLine_trailing_space (line ws : string) :
  all_chars isspace ws = true →
  parseCSVLine (line +:+ ws) = parseCSVLine line.
Proof. apply parseCSVLine_app_space. Qed.

Lemma parseCSVLine_trailing_space_witness :
  parseCSVLine ("csci200,Data,csci100" +:+ String cr "")
  = parseCSVLine "csci200,Data,csci100".
Proof.
  apply (parseCSVLine_trailing_space "csci200,Data,csci100" (String cr "")).
  reflexivity.
Defined.

(** ** Lines *)

Lemma getlines_from_line (l : string) :
  ∀ (rest acc : string) (ext : bool),
    all_chars (not_char newline) l = true →
    getlines_from (l +:+ String newline rest) acc ext
    = (acc +:+ l) :: getlines_from rest "" false.
Proof.
  induction l as [|c l IH]; intros rest acc ext Hl.
  - rewrite str_app_nil_l, str_app_nil_r. reflexivity.
  - cbn [all_chars] in Hl. apply andb_true_iff in Hl as [Hc Hl].
    apply negb_true_iff in Hc. rewrite str_app_cons. cbn [getlines_from].
    rewrite Hc, IH by done. by rewrite push_back_app.
Qed.

Lemma getlines_from_last (l : string) :
  ∀ (acc : string) (ext : bool),
    all_chars (not_char newline) l = true →
    getlines_from l acc ext
    = if ext || negb (is_empty l) then [acc +:+ l] else [].
Proof.
  induction l as [|c l IH]; intros acc ext Hl.
  - cbn [getlines_from is_empty negb]. rewrite orb_false_r, str_app_nil_r. done.
  - cbn [all_chars] in Hl. apply andb_true_iff in Hl as [Hc Hl].
    apply negb_true_iff in Hc. cbn [getlines_from is_empty negb].
    rewrite Hc, IH, orb_true_r by done. cbn [orb]. by rewrite push_back_app.
Qed.

Lemma getlines_from_no_newline (content : string) :
  ∀ (acc : string) (ext : bool) (l : string),
    all_chars (not_char newline) acc = true →
    l ∈ getlines_from content acc ext →
    all_chars (not_char newline) l = true.
Proof.
  induction content as [|c content IH]; intros acc ext l Hacc.
  - cbn [getlines_from]. destruct ext; [|by intros ?%elem_of_nil].
    by intros ->%list_elem_of_singleton.
  - cbn [getlines_from]. destruct (Ascii.eqb c newline) eqn:Hc.
    + intros [->|Hl]%elem_of_cons; [done|]. by apply (IH "" false).
    + apply IH. unfold push_back. rewrite all_chars_app, Hacc. cbn [all_chars].
      unfold not_char. by rewrite Hc.
Qed.

Lemma getlines_unlines (lines : list string) (last : string) :
  Forall (λ l, all_chars (not_char newline) l = true) lines →
  all_chars (not_char newline) last = true →
  getlines (unlines lines +:+ last)
  = lines ++ (if is_empty last then [] else [last]).
Proof.
  intros Hlines Hlast. unfold getlines.
  induction Hlines as [|l lines Hl _ IH].
  - cbn [unlines]. rewrite str_app_nil_l, getlines_from_last by done.
    by destruct last.
  - cbn [unlines]. rewrite str_app_assoc, str_app_cons.
    rewrite getlines_from_line by done. by rewrite IH.
Qed.

(** X7. Reading lines is the inverse of writing them: the lines of a text
    made of lines without line feed, each followed by a line feed, are
    those lines; characters after the last line feed form one more line;
    the empty text has no line; no line ever holds a line feed; writing
    back the lines of a text and reading again gives the same lines. *)
Theorem getlines_inverts_unlines :
  (∀ lines : list string,
     Forall (λ l, all_chars (not_char newline) l = true) lines →
     getlines (unlines lines) = lines)
  ∧ (∀ (lines : list string) (last : string),
       Forall (λ l, all_chars (not_char newline) l = true) lines →
       all_chars (not_char newline) last = true → last ≠ "" →
       getlines (unlines lines +:+ last) = lines ++ [last])
  ∧ getlines "" = []
  ∧ (∀ content l : string, l ∈ getlines content →
       all_chars (not_char newline) l = true)
  ∧ (∀ content : string, getlines (unlines (getlines content)) = getlines content).
Proof.
  assert (∀ content l : string, l ∈ getlines content →
            all_chars (not_char newline) l = true) as Hnl.
  { intros content l. by apply getlines_from_no_newline. }
  assert (∀ lines : list string,
            Forall (λ l, all_chars (not_char newline) l = true) lines →
            getlines (unlines lines) = lines) as Hinv.
  { intros lines Hlines. rewrite <- (str_app_nil_r (unlines lines)).
    rewrite getlines_unlines by done. apply (right_id_L [] (++)). }
  split_and!; [done| |done|done|].
  - intros lines last Hlines Hlast Hne%is_empty_false.
    rewrite getlines_unlines by done. by rewrite Hne.
  - intros content. apply Hinv, Forall_forall. apply Hnl.
Qed.

Lemma getlines_inverts_unlines_witness :
  getlines (unlines ["csci100,Intro"; ""; "csci200,Data"])
  = ["csci100,Intro"; ""; "csci200,Data"]
  ∧ getlines (unlines ["csci100,Intro"] +:+ "csci200,Data")
    = ["csci100,Intro"] ++ ["csci200,Data"].
Proof.
  destruct getlines_inverts_unlines as (Hinv & Hlast & _).
  split.
  - apply Hinv. by repeat constructor.
  - apply Hlast; [by repeat constructor|reflexivity|discriminate].
Defined.

(** ** Line endings of the course file *)

Lemma load_line_padded (n : N) (l' l : string)
    (m : gmap string Course) (w : list string) :
  padded l' l → load_line n l' m w = load_line n l m w.
Proof.
  intros (ws & Hws & ->). unfold load_line.
  by rewrite trim_app_space_r, parseCSVLine_app_space.
Qed.

Lemma load_loop_padded (lines' lines : list string) :
  Forall2 padded lines' lines →
  ∀ (n : N) (m : gmap string Course) (w : list string),
    load_loop lines' n m w = load_loop lines n m w.
Proof.
  induction 1 as [|l' l lines' lines Hl _ IH]; intros n m w; [done|].
  cbn [load_loop]. rewrite (load_line_padded _ l' l) by done.
  destruct (load_line (size_t_incr n) l m w). apply IH.
Qed.

Lemma padded_refl (l : string) : padded l l.
Proof. exists "". by rewrite str_app_nil_r. Qed.

Lemma getlines_from_crlf (content : string) :
  ∀ (acc : string) (ext : bool),
    Forall2 padded (getlines_from (to_crlf content) acc ext)
      (getlines_from content acc ext).
Proof.
  induction content as [|c content IH]; intros acc ext.
  - cbn [to_crlf getlines_from].
    destruct ext; repeat constructor. apply padded_refl.
  - cbn [to_crlf getlines_from]. destruct (Ascii.eqb c newline) eqn:Hc.
    + cbn [getlines_from]. change (Ascii.eqb cr newline) with false. cbn iota.
      change (Ascii.eqb newline newline) with true. cbn iota.
      constructor; [|apply IH]. by exists (String cr "").
    + cbn [getlines_from]. rewrite Hc. apply IH.
Qed.

(** X8. The line endings of the course file do not matter: a file with a
    carriage return before every line feed loads to the same catalog and
    the same warnings as the file without them, and so does, line by line,
    any file whose lines have white space added at their end. *)
Theorem load_ignores_line_endings (fs1 fs2 : FileSystem) (name1 name2 content : string)
    (c0 : gmap string Course) (w0 : list string) :
  fs1 name1 = Some content →
  (fs2 name2 = Some (to_crlf content) →
     loadCoursesFromFile fs2 name2 c0 w0 = loadCoursesFromFile fs1 name1 c0 w0)
  ∧ (∀ content', fs2 name2 = Some content' →
       Forall2 padded (getlines content') (getlines content) →
       loadCoursesFromFile fs2 name2 c0 w0 = loadCoursesFromFile fs1 name1 c0 w0).
Proof.
  intros H1.
  assert (∀ content', fs2 name2 = Some content' →
            Forall2 padded (getlines content') (getlines content) →
            loadCoursesFromFile fs2 name2 c0 w0 = loadCoursesFromFile fs1 name1 c0 w0)
    as Hpad.
  { intros content' H2 Hlines. unfold loadCoursesFromFile. rewrite H1, H2.
    by rewrite (load_loop_padded _ _ Hlines). }
  split; [|done]. intros H2. apply (Hpad _ H2). apply getlines_from_crlf.
Qed.

Lemma load_ignores_line_endings_witness :
  loadCoursesFromFile (λ _, Some (to_crlf sample_csv)) "dos.csv" ∅ []
  = loadCoursesFromFile sample_fs "courses.csv" ∅ [].
Proof.
  destruct (load_ignores_line_endings sample_fs (λ _, Some (to_crlf sample_csv))
              "courses.csv" "dos.csv" sample_csv ∅ []) as [Hcr _]; [reflexivity|].
  apply Hcr. reflexivity.
Defined.

(** ** What a file brings into the catalog *)

Lemma load_line_record_none (n : N) (line : string)
    (m : gmap string Course) (w : list string) :
  line_record line = None → (load_line n line m w).1 = m.
Proof.
  unfold line_record, load_line.
  destruct (is_empty (trim line)); [done|].
  destruct (parseCSVLine line) as [|f0 [|f1 rest]]; [done..|].
  cbn [load_fields]. by destruct (is_empty (toUpper (trim f0))).
Qed.

Lemma load_line_record_some (n : N) (line cid ttl : string) (rest : list string)
    (m : gmap string Course) (w : list string) :
  line_record line = Some (cid, ttl, rest) →
  cid ≠ "" ∧ (∃ f0, cid = toUpper (trim f0))
  ∧ ∀ k, (load_line n line m w).1 !! k
         = if decide (k = cid) then Some (merged m cid ttl rest)
           else match m !! k with
                | Some e => Some e
                | None => if decide (k ∈ prereq_ids rest)
                          then Some (placeholder k) else None
                end.
Proof.
  unfold line_record, load_line.
  destruct (is_empty (trim line)); [done|].
  destruct (parseCSVLine line) as [|f0 [|f1 rest']]; [done..|].
  destruct (is_empty (toUpper (trim f0))) eqn:E; [done|].
  intros [= <- <- <-]. apply is_empty_false in E.
  split; [done|]. split; [by eexists|]. intros k. by apply load_fields_lookup.
Qed.

Lemma load_line_dom (n : N) (line : string)
    (m : gmap string Course) (w : list string) (k : string) :
  is_Some ((load_line n line m w).1 !! k)
  ↔ is_Some (m !! k) ∨ k ∈ line_keys line.
Proof.
  unfold line_keys. destruct (line_record line) as [[[cid ttl] rest]|] eqn:E.
  - destruct (load_line_record_some n line cid ttl rest m w E) as (_ & _ & ->).
    rewrite elem_of_cons. case_decide as Hk.
    + split; [auto|by eexists].
    + destruct (m !! k) as [e|].
      * split; [intros _; left; by eexists|by eexists].
      * case_decide.
        -- split; [auto|by eexists].
        -- split; [by intros [? [=]]|]. intros [[? [=]]|[?|?]]; done.
  - rewrite load_line_record_none by done.
    split; [auto|]. by intros [?|?%elem_of_nil].
Qed.

Lemma load_line_titled (n : N) (line : string)
    (m : gmap string Course) (w : list string) (k : string) :
  titled (load_line n line m w).1 k
  ↔ titled m k ∨ ∃ ttl rest, line_record line = Some (k, ttl, rest) ∧ ttl ≠ "".
Proof.
  unfold titled. destruct (line_record line) as [[[cid ttl] rest]|] eqn:E.
  - destruct (load_line_record_some n line cid ttl rest m w E) as (_ & _ & Hlk).
    setoid_rewrite Hlk. case_decide as Hk.
    + subst k. unfold merged. destruct (is_empty ttl) eqn:Et.
      * apply is_empty_true in Et. subst ttl. split.
        -- intros (c & [= <-] & Hc). cbn [title] in Hc. left.
           destruct (m !! cid) as [old|]; [by exists old|done].
        -- intros [(c & Hc & Ht)|(t & r & [= <- _] & Hne)]; [|done].
           eexists. split; [done|]. rewrite Hc. done.
      * apply is_empty_false in Et. split.
        -- intros _. right. by exists ttl, rest.
        -- intros _. eexists. split; [done|]. done.
    + split.
      * intros (c & Hc & Ht). left. destruct (m !! k) as [e|]; [by exists c|].
        case_decide; [|done]. by injection Hc as <-.
      * intros [(c & Hc & Ht)|(t & r & [= -> _ _] & _)]; [|done].
        exists c. by rewrite Hc.
  - rewrite load_line_record_none by done. split; [auto|].
    by intros [?|(? & ? & [=] & _)].
Qed.

Lemma load_loop_dom_titled (lines : list string) :
  ∀ (n : N) (m : gmap string Course) (w : list string) (k : string),
    (is_Some ((load_loop lines n m w).1 !! k)
     ↔ is_Some (m !! k) ∨ ∃ line, line ∈ lines ∧ k ∈ line_keys line)
    ∧ (titled (load_loop lines n m w).1 k
       ↔ titled m k
         ∨ ∃ line ttl rest, line ∈ lines
             ∧ line_record line = Some (k, ttl, rest) ∧ ttl ≠ "").
Proof.
  induction lines as [|line lines IH]; intros n m w k.
  - cbn [load_loop fst]. split.
    + split; [auto|]. by intros [?|(? & ?%elem_of_nil & _)].
    + split; [auto|]. by intros [?|(? & ? & ? & ?%elem_of_nil & _)].
  - cbn [load_loop].
    pose proof (load_line_dom (size_t_incr n) line m w k) as Hdom.
    pose proof (load_line_titled (size_t_incr n) line m w k) as Htit.
    destruct (load_line (size_t_incr n) line m w) as [m1 w1]. cbn [fst] in *.
    destruct (IH (size_t_incr n) m1 w1 k) as [IHdom IHtit].
    rewrite IHdom, IHtit, Hdom, Htit. split.
    + split.
      * intros [[?|?]|(l & Hl & Hk)]; [by left|right..].
        -- exists line. split; [apply elem_of_cons; by left|done].
        -- exists l. split; [apply elem_of_cons; by right|done].
      * intros [?|(l & [->|Hl]%elem_of_cons & Hk)]; [by left; left|by left; right|].
        right. by exists l.
    + split.
      * intros [[?|(t & r & ? & ?)]|(l & t & r & Hl & ? & ?)]; [by left|right..].
        -- exists line, t, r. split; [apply elem_of_cons; by left|done].
        -- exists l, t, r. split; [apply elem_of_cons; by right|done].
      * intros [?|(l & t & r & [->|Hl]%elem_of_cons & ? & ?)]; [by left; left|..].
        -- left; right. by exists t, r.
        -- right. by exists l, t, r.
Qed.

(** X9. The catalog a load leaves has an entry exactly for the identifiers
    that the kept lines of the file define or list as prerequisites, and an
    entry with a title exactly for the identifiers that some kept line
    defines with a title that is not empty. *)
Theorem loaded_keys_come_from_lines (fs : FileSystem) (filename content : string)
    (c0 : gmap string Course) (w0 : list string) (k : string) :
  fs filename = Some content →
  let r := loadCoursesFromFile fs filename c0 w0 in
  (is_Some (ld_courses r !! k)
   ↔ ∃ line, line ∈ getlines content ∧ k ∈ line_keys line)
  ∧ ((∃ c, ld_courses r !! k = Some c ∧ title c ≠ "")
     ↔ ∃ line ttl rest, line ∈ getlines content
         ∧ line_record line = Some (k, ttl, rest) ∧ ttl ≠ "").
Proof.
  intros Hfs r.
  assert (ld_courses r = (load_loop (getlines content) 0 ∅ []).1) as ->.
  { unfold r, loadCoursesFromFile. rewrite Hfs.
    by destruct (load_loop (getlines content) 0 ∅ []). }
  destruct (load_loop_dom_titled (getlines content) 0 ∅ [] k) as [Hdom Htit].
  split.
  - rewrite Hdom. split; [|auto]. intros [[? Hk]|?]; [|done].
    by rewrite lookup_empty in Hk.
  - fold (titled (load_loop (getlines content) 0 ∅ []).1 k). rewrite Htit.
    split; [|auto]. intros [(? & Hk & _)|?]; [|done].
    by rewrite lookup_empty in Hk.
Qed.

Lemma loaded_keys_come_from_lines_witness :
  is_Some (sample_catalog !! "ZZZ")
  ∧ ¬ ∃ c, sample_catalog !! "CSCI300" = Some c ∧ title c ≠ "".
Proof.
  destruct (loaded_keys_come_from_lines sample_fs "courses.csv" sample_csv ∅ [] "ZZZ")
    as [Hdom _]; [reflexivity|].
  destruct (loaded_keys_come_from_lines sample_fs "courses.csv" sample_csv ∅ [] "CSCI300")
    as [_ Htit]; [reflexivity|].
  split.
  - apply Hdom. exists "csci400,Last,zzz,csci100". split.
    + apply list_elem_of_In. vm_compute. auto 10.
    + apply list_elem_of_In. vm_compute. auto.
  - intros Hc. apply Htit in Hc as (line & ttl & rest & Hl & Hrec & Hne).
    apply list_elem_of_In in Hl. vm_compute in Hl.
    destruct Hl as [<-|[<-|[<-|[<-|[<-|[<-|[<-|[]]]]]]]];
      vm_compute in Hrec; try discriminate.
    injection Hrec as <- _. by apply Hne.
Defined.

(** ** A course defined once *)

Lemma load_line_other (n : N) (line cid : string)
    (m : gmap string Course) (w : list string) :
  (∀ t r, line_record line ≠ Some (cid, t, r)) →
  (∀ e, m !! cid = Some e → (load_line n line m w).1 !! cid = Some e)
  ∧ (m !! cid = None →
       (load_line n line m w).1 !! cid = None
       ∨ (load_line n line m w).1 !! cid = Some (placeholder cid)).
Proof.
  intros Hother. destruct (line_record line) as [[[cid' ttl] rest]|] eqn:E.
  - destruct (load_line_record_some n line cid' ttl rest m w E) as (_ & _ & ->).
    rewrite decide_False by (intros ->; by apply (Hother ttl rest)).
    split; [by intros e ->|]. intros ->. case_decide; auto.
  - rewrite load_line_record_none by done. auto.
Qed.

Lemma load_loop_other (lines : list string) (cid : string) :
  (∀ l, l ∈ lines → ∀ t r, line_record l ≠ Some (cid, t, r)) →
  ∀ (n : N) (m : gmap string Course) (w : list string),
    (∀ e, m !! cid = Some e → (load_loop lines n m w).1 !! cid = Some e)
    ∧ (m !! cid = None →
         (load_loop lines n m w).1 !! cid = None
         ∨ (load_loop lines n m w).1 !! cid = Some (placeholder cid)).
Proof.
  induction lines as [|line lines IH]; intros Hother n m w; [cbn; auto|].
  cbn [load_loop].
  destruct (load_line_other (size_t_incr n) line cid m w) as [Hkeep Hnew].
  { apply Hother, elem_of_cons. by left. }
  destruct (load_line (size_t_incr n) line m w) as [m1 w1]. cbn [fst] in *.
  destruct (IH (λ l Hl, Hother l (proj2 (elem_of_cons _ _ _) (or_intror Hl)))
              (size_t_incr n) m1 w1) as [IHkeep IHnew].
  split.
  - intros e He. by apply IHkeep, Hkeep.
  - intros Hnone. destruct (Hnew Hnone) as [H1|H1]; [by apply IHnew|].
    right. by apply IHkeep.
Qed.

(** X10. A course that exactly one kept line of the file defines is stored
    under its normalised identifier with the title field and the
    prerequisite identifiers of that line, wherever other lines name it as
    a prerequisite; when the title is not empty, [printCourseInfo] on a
    query that normalises to the identifier prints that identifier and
    title, then the prerequisites of the line in order. *)
Theorem load_then_describe (fs : FileSystem) (filename content : string)
    (c0 : gmap string Course) (w0 : list string)
    (pre : list string) (line : string) (post : list string)
    (cid ttl : string) (rest : list string) :
  fs filename = Some content →
  getlines content = pre ++ line :: post →
  line_record line = Some (cid, ttl, rest) →
  (∀ l, l ∈ pre ++ post → ∀ t r, line_record l ≠ Some (cid, t, r)) →
  let catalog := ld_courses (loadCoursesFromFile fs filename c0 w0) in
  catalog !! cid = Some (mkCourse cid ttl (prereq_ids rest))
  ∧ (ttl ≠ "" → ∀ q, toUpper (trim q) = cid →
       printCourseInfo catalog q
       = [""; cid +:+ ": " +:+ ttl]
         ++ match prereq_ids rest with
            | [] => ["Prerequisites: None"]
            | pids => "Prerequisites:" :: (prereq_line catalog <$> pids)
            end
         ++ [""]).
Proof.
  intros Hfs Hlines Hrec Hother catalog.
  assert (catalog = (load_loop (pre ++ line :: post) 0 ∅ []).1) as Hcat.
  { unfold catalog, loadCoursesFromFile. rewrite Hfs, Hlines.
    by destruct (load_loop (pre ++ line :: post) 0 ∅ []). }
  assert (catalog !! cid = Some (mkCourse cid ttl (prereq_ids rest))) as Hentry.
  { rewrite Hcat, load_loop_app. cbn [load_loop].
    destruct (load_loop_other pre cid) with (n := 0%N) (m := (∅ : gmap string Course))
      (w := ([] : list string)) as [_ Hpre].
    { intros l Hl. apply Hother, elem_of_app. by left. }
    specialize (Hpre (lookup_empty _)).
    set (m0 := (load_loop pre 0 ∅ []).1) in *.
    set (n1 := size_t_incr _).
    destruct (load_line_record_some n1 line cid ttl rest m0 (load_loop pre 0 ∅ []).2 Hrec)
      as (_ & _ & Hlk).
    specialize (Hlk cid). rewrite decide_True in Hlk by done.
    destruct (load_line n1 line m0 _) as [m1 w1]. cbn [fst] in Hlk.
    destruct (load_loop_other post cid) with (n := n1) (m := m1) (w := w1)
      as [Hpost _].
    { intros l Hl. apply Hother, elem_of_app. by right. }
    rewrite (Hpost _ Hlk). f_equal. unfold merged.
    assert (default Course_default (m0 !! cid) = Course_default
            ∨ default Course_default (m0 !! cid) = placeholder cid) as Hold.
    { destruct Hpre as [->| ->]; auto. }
    destruct Hold as [-> | ->]; cbn [title prereqs Course_default placeholder];
      by destruct ttl. }
  split; [done|]. intros Ht%is_empty_false q Hq.
  unfold printCourseInfo. rewrite Hq, Hentry. cbn [title id prereqs]. rewrite Ht.
  destruct (load_line_record_some 0 line cid ttl rest ∅ [] Hrec) as (Hne%is_empty_false & _).
  rewrite Hne. destruct (prereq_ids rest) as [|p ps] eqn:Hp; [done|].
  by rewrite print_prereqs_lines, <- (assoc_L (++)).
Qed.

Lemma load_then_describe_witness :
  sample_catalog !! "CSCI200"
  = Some (mkCourse "CSCI200" "Data" ["CSCI100"; "MATH201"])
  ∧ printCourseInfo sample_catalog " csci200 "
    = [""; "CSCI200: Data"; "Prerequisites:"; "  - CSCI100: Intro";
       "  - MATH201: Title unknown"; ""].
Proof.
  destruct (load_then_describe sample_fs "courses.csv" sample_csv ∅ []
              ["csci100,Intro"] "csci200, Data ,csci100, math201"
              [",oops"; "justone"; ""; "CSCI300,,csci200,csci200,";
               "csci400,Last,zzz,csci100"]
              "CSCI200" "Data" ["csci100"; "math201"]) as [Hentry Hprint];
    [reflexivity|reflexivity|reflexivity| |].
  - intros l Hl t r Hrec. apply list_elem_of_In in Hl. simpl in Hl.
    destruct Hl as [<-|[<-|[<-|[<-|[<-|[<-|[]]]]]]]; vm_compute in Hrec;
      discriminate.
  - split; [exact Hentry|].
    unfold sample_catalog.
    rewrite (Hprint ltac:(discriminate) " csci200 " eq_refl). reflexivity.
Defined.

(** ** Keys in normal form *)

Lemma prereq_ids_form (fields : list string) (p : string) :
  p ∈ prereq_ids fields → ∃ f, p = toUpper (trim f) ∧ p ≠ "".
Proof.
  induction fields as [|f rest IH]; cbn [prereq_ids]; [by intros ?%elem_of_nil|].
  destruct (is_empty (toUpper (trim f))) eqn:E; [done|].
  intros [->|?]%elem_of_cons; [|by apply IH].
  apply is_empty_false in E. eauto.
Qed.

Lemma toUpper_trim_normal (f : string) :
  toUpper (trim (toUpper (trim f))) = toUpper (trim f).
Proof. by rewrite trim_toUpper, trim_idemp, toUpper_idemp. Qed.

Lemma load_fields_keys_normal (n : N) (fields : list string)
    (m : gmap string Course) (w : list string) :
  keys_normal m → keys_normal (load_fields n fields m w).1.
Proof.
  intros Hm.
  destruct (load_fields_cases n fields m w) as [->|(f0 & f1 & rest & -> & Hcid)];
    [done|].
  intros k. rewrite load_fields_lookup by done. case_decide as Hk.
  - intros _. subst k. split; [done|apply toUpper_trim_normal].
  - destruct (m !! k) as [e|] eqn:Ek.
    + intros _. apply Hm. by rewrite Ek.
    + case_decide as Hin; [|by intros [? [=]]]. intros _.
      apply prereq_ids_form in Hin as (f & -> & Hne).
      split; [done|apply toUpper_trim_normal].
Qed.

Lemma run_loads_keys_normal (loads : list (FileSystem * string)) :
  ∀ app, keys_normal (courses app) → keys_normal (courses (run_loads loads app)).
Proof.
  induction loads as [|[fs filenameLine] rest IH]; intros app Happ; [done|].
  cbn [run_loads]. apply IH. unfold menu_load.
  destruct (is_empty (trim filenameLine)); [done|].
  destruct (ld_ok (loadCoursesFromFile fs (trim filenameLine) (courses app) []))
    eqn:Hok; cbn [st_app courses].
  - apply (loaded_inv _ _ _ _ Hok keys_normal).
    + intros k [? Hk]. by rewrite lookup_empty in Hk.
    + intros. by apply load_fields_keys_normal.
  - by apply loadCoursesFromFile_fail in Hok as [_ ->].
Qed.

(** X11. Whatever loads were made, every key of the catalog is a non-empty
    string that trimming and uppercasing leave unchanged, so every entry can
    be queried by its own key: [printCourseInfo] on the key of an entry with
    a title prints that key and title, and on the key of an entry without
    title prints the not found message, never the empty identifier error. *)
Theorem catalog_keys_are_queries (loads : list (FileSystem * string))
    (k : string) (c : Course) :
  let catalog := courses (run_loads loads app_init) in
  catalog !! k = Some c →
  k ≠ "" ∧ toUpper (trim k) = k
  ∧ (title c ≠ "" →
       ∃ body, printCourseInfo catalog k = [""; k +:+ ": " +:+ title c] ++ body ++ [""])
  ∧ (title c = "" → printCourseInfo catalog k = ["Course not found: " +:+ k]).
Proof.
  intros catalog Hk.
  destruct (run_loads_keys_normal loads app_init) with (k := k) as [Hne Hnorm].
  { intros j [? Hj]. cbn [app_init courses] in Hj. by rewrite lookup_empty in Hj. }
  { fold catalog. by rewrite Hk. }
  destruct (run_loads_init loads) as (Hid & _).
  split; [done|]. split; [done|]. apply is_empty_false in Hne.
  unfold printCourseInfo. rewrite Hnorm, Hne. fold catalog. rewrite Hk. split.
  - intros Ht%is_empty_false. rewrite Ht, (Hid k c Hk).
    destruct (prereqs c) as [|p ps].
    + by exists ["Prerequisites: None"].
    + rewrite print_prereqs_lines.
      exists ("Prerequisites:" :: (prereq_line catalog <$> p :: ps)).
      by rewrite <- !(assoc_L (++)).
  - intros ->. done.
Qed.

Lemma catalog_keys_are_queries_witness :
  toUpper (trim "CSCI100") = "CSCI100"
  ∧ printCourseInfo sample_catalog "MATH201" = ["Course not found: MATH201"].
Proof.
  destruct (catalog_keys_are_queries [(sample_fs, "courses.csv")] "CSCI100"
              (mkCourse "CSCI100" "Intro" [])) as (_ & Hnorm & _); [reflexivity|].
  destruct (catalog_keys_are_queries [(sample_fs, "courses.csv")] "MATH201"
              (placeholder "MATH201")) as (_ & _ & _ & Hmiss); [reflexivity|].
  split; [exact Hnorm|]. apply Hmiss. reflexivity.
Defined.

(** ** Warnings *)

Lemma load_line_warns (n : N) (line : string)
    (m : gmap string Course) (w : list string) :
  ∃ ws, (load_line n line m w).2 = w ++ ws
        ∧ length ws ≤ 1 ∧ (ws = [] ↔ quiet_line line).
Proof.
  unfold quiet_line, line_record, load_line.
  destruct (is_empty (trim line)) eqn:Eb.
  { exists []. rewrite (right_id_L [] (++)). apply is_empty_true in Eb.
    split; [done|]. split; [simpl; lia|]. split; [by left|done]. }
  apply is_empty_false in Eb.
  destruct (parseCSVLine line) as [|f0 [|f1 rest]].
  1,2: eexists [_]; split; [done|]; split; [done|];
    split; [done|]; by intros [?|(? & ? & ? & [=] & _)].
  cbn [load_fields]. destruct (is_empty (toUpper (trim f0))).
  { eexists [_]. split; [done|]. split; [done|].
    split; [done|]. by intros [?|(? & ? & ? & [=] & _)]. }
  cbn [snd]. destruct (is_empty f1) eqn:E1.
  - eexists [_]. split; [done|]. split; [done|]. split; [done|].
    apply is_empty_true in E1. by intros [?|(? & ? & ? & [= _ <- _] & ?)].
  - exists []. rewrite (right_id_L [] (++)). split; [done|]. split; [simpl; lia|].
    split; [|done]. intros _. right. apply is_empty_false in E1. eauto.
Qed.

Lemma load_loop_warns (lines : list string) :
  ∀ (n : N) (m : gmap string Course) (w : list string),
    ∃ ws, (load_loop lines n m w).2 = w ++ ws
          ∧ length ws ≤ length lines ∧ (ws = [] ↔ Forall quiet_line lines).
Proof.
  induction lines as [|line lines IH]; intros n m w.
  - exists []. cbn [load_loop snd]. rewrite (right_id_L [] (++)).
    split; [done|]. split; [done|]. split; [by constructor|done].
  - cbn [load_loop].
    destruct (load_line_warns (size_t_incr n) line m w) as (ws1 & Hw1 & Hlen1 & Hq1).
    destruct (load_line (size_t_incr n) line m w) as [m1 w1]. cbn [snd] in Hw1.
    destruct (IH (size_t_incr n) m1 w1) as (ws2 & Hw2 & Hlen2 & Hq2).
    exists (ws1 ++ ws2). rewrite Hw2, Hw1, (assoc_L (++)). split; [done|].
    rewrite length_app. split; [simpl; lia|]. split.
    + intros [H1 H2]%app_eq_nil. constructor; [by apply Hq1|by apply Hq2].
    + intros [H1%Hq1 H2%Hq2]%Forall_cons. by rewrite H1, H2.
Qed.

(** X12. A load records at most one warning per line of the file, and
    records none exactly when every line is blank or is a record with a
    non-empty identifier and a non-empty title. *)
Theorem load_warnings_count (fs : FileSystem) (filename content : string)
    (c0 : gmap string Course) (w0 : list string) :
  fs filename = Some content →
  let r := loadCoursesFromFile fs filename c0 w0 in
  length (ld_warnings r) ≤ length (getlines content)
  ∧ (ld_warnings r = [] ↔ Forall quiet_line (getlines content)).
Proof.
  intros Hfs r.
  destruct (load_loop_warns (getlines content) 0 ∅ []) as (ws & Hws & Hlen & Hq).
  assert (ld_warnings r = ws) as ->.
  { unfold r, loadCoursesFromFile. rewrite Hfs.
    by destruct (load_loop (getlines content) 0 ∅ []). }
  done.
Qed.

Lemma load_warnings_count_witness :
  length (ld_warnings (loadCoursesFromFile sample_fs "courses.csv" ∅ [])) ≤ 7
  ∧ ¬ Forall quiet_line (getlines sample_csv).
Proof.
  destruct (load_warnings_count sample_fs "courses.csv" sample_csv ∅ [])
    as [Hlen Hquiet]; [reflexivity|].
  split; [exact Hlen|]. intros Hq. apply Hquiet in Hq. discriminate Hq.
Defined.

(** ** The loop of [main] *)

Lemma back_pop_back (s : string) (c : ascii) :
  back s = Some c → s = pop_back s +:+ String c "".
Proof.
  induction s as [|d s IH]; [done|]. destruct s as [|e s].
  - by intros [= ->].
  - intros Hb. change (pop_back (String d (String e s)))
      with (String d (pop_back (String e s))).
    rewrite str_app_cons. f_equal. by apply IH.
Qed.

Lemma trim_strip_cr (s : string) : trim (strip_cr s) = trim s.
Proof.
  unfold strip_cr. destruct (back s) as [c|] eqn:Hb; [|done].
  destruct (Ascii.eqb_spec c cr) as [->|]; [|done].
  rewrite (back_pop_back s cr Hb) at 2. by rewrite trim_app_space_r.
Qed.

Lemma menu_load_trim (fs : FileSystem) (l l' : string) (app : AppState) :
  trim l = trim l' → menu_load fs l app = menu_load fs l' app.
Proof. intros H. unfold menu_load. by rewrite H. Qed.

Lemma printCourseInfo_trim (m : gmap string Course) (q q' : string) :
  trim q = trim q' → printCourseInfo m q = printCourseInfo m q'.
Proof. intros H. unfold printCourseInfo. by rewrite H. Qed.

(** A round calls the rest of the loop on what remains of the input. *)
Lemma main_round_ext (fs : FileSystem) (l : string) (input : list string)
    (app : AppState) (cout cerr : list string)
    (k1 k2 : list string → AppState → list string → list string → Run) :
  (∀ inp a co ce, length inp ≤ length input → k1 inp a co ce = k2 inp a co ce) →
  main_round fs l input app cout cerr k1 = main_round fs l input app cout cerr k2.
Proof.
  intros Hk. unfold main_round.
  destruct (is_empty (trim l)); [by apply Hk|].
  destruct (negb (all_chars isdigit (trim l))); [by apply Hk|].
  destruct (stoi (trim l)) as [choice|]; [|done].
  destruct (choice =? 1)%N.
  { destruct input as [|x rest]; [done|]. cbn [safeGetline]. apply Hk. simpl. lia. }
  destruct (choice =? 2)%N.
  { destruct (menu_list app); [by apply Hk|done]. }
  destruct (choice =? 3)%N.
  { destruct (dataLoaded app); [|by apply Hk].
    destruct input as [|x rest]; [done|]. cbn [safeGetline]. apply Hk. simpl. lia. }
  destruct (choice =? 9)%N; [done|]. by apply Hk.
Qed.

(** The loop never runs out of fuel: any amount above the number of lines
    left gives the same run. *)
Lemma main_rounds_fuel (fs : FileSystem) (fuel1 : nat) :
  ∀ (fuel2 : nat) (input : list string) (app : AppState) (cout cerr : list string),
    length input < fuel1 → length input < fuel2 →
    main_rounds fuel1 fs input app cout cerr
    = main_rounds fuel2 fs input app cout cerr.
Proof.
  induction fuel1 as [|fuel1 IH]; intros fuel2 input app cout cerr H1 H2; [lia|].
  destruct fuel2 as [|fuel2]; [lia|]. cbn [main_rounds].
  destruct input as [|x rest]; [done|]. cbn [safeGetline]. simpl in H1, H2.
  apply main_round_ext. intros inp a co ce Hlen. apply IH; lia.
Qed.

Lemma main_loop_eq (fs : FileSystem) (input : list string) (app : AppState)
    (cout cerr : list string) :
  main_loop fs input app cout cerr
  = match safeGetline input with
    | None => input_closed app (cout ++ showMenu) cerr
    | Some (choiceLine, input) =>
        main_round fs choiceLine input app (cout ++ showMenu) cerr (main_loop fs)
    end.
Proof.
  unfold main_loop at 1. cbn [main_rounds].
  destruct input as [|x rest]; [done|]. cbn [safeGetline].
  apply main_round_ext. intros inp a co ce Hlen. unfold main_loop.
  apply main_rounds_fuel; simpl; lia.
Qed.

Lemma main_loop_trim_len (fs : FileSystem) (n : nat) :
  ∀ (input input' : list string) (app : AppState) (cout cerr : list string),
    length input ≤ n →
    Forall2 (λ l l', trim l = trim l') input input' →
    main_loop fs input app cout cerr = main_loop fs input' app cout cerr.
Proof.
  induction n as [|n IH]; intros input input' app cout cerr Hlen Hin.
  { destruct Hin; [done|simpl in Hlen; lia]. }
  rewrite !main_loop_eq. destruct Hin as [|x x' rest rest' Hx Hrest]; [done|].
  cbn [safeGetline]. simpl in Hlen. unfold main_round.
  rewrite !trim_strip_cr, <- Hx.
  destruct (is_empty (trim x)); [apply IH; [lia|done]|].
  destruct (negb (all_chars isdigit (trim x))); [apply IH; [lia|done]|].
  destruct (stoi (trim x)) as [choice|]; [|done].
  destruct (choice =? 1)%N.
  { destruct Hrest as [|y y' rest rest' Hy Hrest]; [done|]. cbn [safeGetline].
    rewrite (menu_load_trim fs (strip_cr y) (strip_cr y'))
      by (by rewrite !trim_strip_cr).
    apply IH; [simpl in Hlen; lia|done]. }
  destruct (choice =? 2)%N.
  { destruct (menu_list app); [apply IH; [lia|done]|done]. }
  destruct (choice =? 3)%N.
  { destruct (dataLoaded app); [|apply IH; [lia|done]].
    destruct Hrest as [|y y' rest rest' Hy Hrest]; [done|]. cbn [safeGetline].
    rewrite (printCourseInfo_trim _ (strip_cr y) (strip_cr y'))
      by (by rewrite !trim_strip_cr).
    apply IH; [simpl in Hlen; lia|done]. }
  destruct (choice =? 9)%N; [done|]. apply IH; [lia|done].
Qed.

(** X13. A session only depends on the trimmed form of the lines typed:
    two inputs whose lines agree after trimming give the same run. In
    particular an input with a carriage return before every line feed gives
    the run of the input without them. *)
Theorem main_ignores_line_padding (fs : FileSystem) (stdin : string)
    (input input' : list string) (app : AppState) (cout cerr : list string) :
  (Forall2 (λ l l', trim l = trim l') input input' →
     main_loop fs input app cout cerr = main_loop fs input' app cout cerr)
  ∧ main fs (to_crlf stdin) = main fs stdin.
Proof.
  split.
  - by apply (main_loop_trim_len fs (length input)).
  - unfold main. apply (main_loop_trim_len fs (length (getlines (to_crlf stdin))));
      [done|].
    eapply Forall2_impl; [apply getlines_from_crlf|].
    intros l' l (ws & Hws & ->). by apply trim_app_space_r.
Qed.

Lemma main_ignores_line_padding_witness :
  main_loop sample_fs [" 1 "; "courses.csv  "; "2"; "9"] app_init [] []
  = main_loop sample_fs ["1"; " courses.csv"; " 2"; "  9"] app_init [] [].
Proof.
  destruct (main_ignores_line_padding sample_fs ""
              [" 1 "; "courses.csv  "; "2"; "9"]
              ["1"; " courses.csv"; " 2"; "  9"] app_init [] []) as [Hpad _].
  apply Hpad. repeat constructor.
Defined.

Lemma printSortedCourseList_is_Some (m : gmap string Course) :
  keys_are_ids m → is_Some (printSortedCourseList m).
Proof.
  intros Hm. unfold printSortedCourseList. rewrite print_ids_lines; [by eexists|].
  intros i (c & Hc & _)%sorted_ids_elem; [by eexists|done].
Qed.

Lemma menu_load_keys_are_ids (fs : FileSystem) (l : string) (app : AppState) :
  keys_are_ids (courses app) → keys_are_ids (courses (st_app (menu_load fs l app))).
Proof.
  intros Happ. unfold menu_load. destruct (is_empty (trim l)); [done|].
  destruct (ld_ok (loadCoursesFromFile fs (trim l) (courses app) [])) eqn:Hok;
    cbn [st_app courses].
  - by apply loaded_keys_are_ids.
  - by apply loadCoursesFromFile_fail in Hok as [_ ->].
Qed.

Lemma main_loop_safe_len (fs : FileSystem) (n : nat) :
  ∀ (input : list string) (app : AppState) (cout cerr : list string),
    length input ≤ n →
    keys_are_ids (courses app) →
    Forall choice_in_range input →
    run_outcome (main_loop fs input app cout cerr) = Returned
    ∧ keys_are_ids (courses (run_app (main_loop fs input app cout cerr))).
Proof.
  induction n as [|n IH]; intros input app cout cerr Hlen Happ Hin.
  { destruct input; [by rewrite main_loop_eq|simpl in Hlen; lia]. }
  rewrite main_loop_eq. destruct Hin as [|x rest Hx Hrest]; [done|].
  cbn [safeGetline]. simpl in Hlen. unfold main_round. rewrite trim_strip_cr.
  destruct (is_empty (trim x)); [apply IH; [lia|done..]|].
  destruct (all_chars isdigit (trim x)) eqn:Hd; cbn [negb];
    [|apply IH; [lia|done..]].
  destruct (Hx Hd) as [choice ->].
  destruct (choice =? 1)%N.
  { destruct Hrest as [|y rest Hy Hrest]; [done|]. cbn [safeGetline].
    apply IH; [simpl in Hlen; lia|by apply menu_load_keys_are_ids|done]. }
  destruct (choice =? 2)%N.
  { unfold menu_list. destruct (dataLoaded app).
    - destruct (printSortedCourseList_is_Some _ Happ) as [lines ->].
      cbn [mbind option_bind]. apply IH; [lia|done..].
    - apply IH; [lia|done..]. }
  destruct (choice =? 3)%N.
  { destruct (dataLoaded app); [|apply IH; [lia|done..]].
    destruct Hrest as [|y rest Hy Hrest]; [done|]. cbn [safeGetline].
    apply IH; [simpl in Hlen; lia|done..]. }
  destruct (choice =? 9)%N; [done|]. apply IH; [lia|done..].
Qed.

(** X14. The only exception that can end a session is the
    [std::out_of_range] of [std::stoi]: when every line typed that is made
    of digits, once trimmed, has a value that fits an [int], [main] returns,
    whatever files are loaded and whatever is asked; [courses.at] never
    throws. A menu choice made of digits whose value is above [INT_MAX]
    does end the program, after the menu and before anything else is
    printed, whatever the input that follows. *)
Theorem main_uncaught_only_stoi (fs : FileSystem) (stdin : string)
    (x : string) (rest : list string) (app : AppState) (cout cerr : list string) :
  (Forall choice_in_range (getlines stdin) →
     run_outcome (main fs stdin) = Returned)
  ∧ (trim x ≠ "" → all_chars isdigit (trim x) = true →
       (INT_MAX < digits_value (trim x) 0)%N →
       main_loop fs (x :: rest) app cout cerr
       = mkRun app (cout ++ showMenu) cerr Uncaught).
Proof.
  split.
  - intros Hin. unfold main.
    by apply (main_loop_safe_len fs (length (getlines stdin))).
  - intros Hne%is_empty_false Hd Hbig. rewrite main_loop_eq. cbn [safeGetline].
    unfold main_round. rewrite trim_strip_cr, Hne, Hd. cbn [negb].
    unfold stoi. by rewrite (proj2 (N.leb_gt _ _) Hbig).
Qed.

Lemma main_uncaught_only_stoi_witness :
  run_outcome (main sample_fs (unlines ["1"; "courses.csv"; "2"; "3"; "zzz"; "9"]))
  = Returned
  ∧ run_outcome (main_loop sample_fs [" 4294967297"; "9"] app_init [] []) = Uncaught.
Proof.
  destruct (main_uncaught_only_stoi sample_fs
              (unlines ["1"; "courses.csv"; "2"; "3"; "zzz"; "9"])
              " 4294967297" ["9"] app_init [] []) as [Hsafe Hbig].
  split.
  - apply Hsafe. apply Forall_forall. intros l Hl. apply list_elem_of_In in Hl.
    vm_compute in Hl.
    destruct Hl as [<-|[<-|[<-|[<-|[<-|[<-|[]]]]]]]; intros Hd;
      try discriminate Hd; vm_compute; by eexists.
  - rewrite Hbig; [reflexivity|discriminate|reflexivity|reflexivity].
Defined.

(** ** Several lines for one course *)

Lemma load_line_contrib (n : N) (line : string)
    (m : gmap string Course) (w : list string) (k : string) (c' : Course) :
  (load_line n line m w).1 !! k = Some c' →
  title c' = default (title (default Course_default (m !! k))) (line_title k line)
  ∧ prereqs c' = prereqs (default Course_default (m !! k)) ++ line_prereqs k line.
Proof.
  unfold line_title, line_prereqs.
  destruct (line_record line) as [[[cid ttl] rest]|] eqn:E.
  - destruct (load_line_record_some n line cid ttl rest m w E) as (_ & _ & ->).
    destruct (decide (k = cid)) as [->|Hk].
    + rewrite !(decide_True (P := cid = cid)) by done. intros [= <-].
      unfold merged. cbn [title prereqs]. by destruct (is_empty ttl).
    + rewrite !(decide_False (P := cid = k)) by congruence. cbn [default].
      rewrite (right_id_L [] (++)). destruct (m !! k) as [e|].
      * by intros [= <-].
      * case_decide; [|done]. by intros [= <-].
  - rewrite load_line_record_none by done. intros ->. cbn [default].
    by rewrite (right_id_L [] (++)).
Qed.

Lemma last_cons_default (t0 t : string) (l : list string) :
  default (default t0 (Some t)) (last l) = default t0 (last (t :: l)).
Proof. rewrite last_cons. by destruct (last l). Qed.

Lemma load_loop_contrib (lines : list string) :
  ∀ (n : N) (m : gmap string Course) (w : list string) (k : string) (c' : Course),
    (load_loop lines n m w).1 !! k = Some c' →
    title c' = default (title (default Course_default (m !! k)))
                 (last (omap (line_title k) lines))
    ∧ prereqs c' = prereqs (default Course_default (m !! k))
                   ++ concat (line_prereqs k <$> lines).
Proof.
  induction lines as [|line lines IH]; intros n m w k c' Hc'.
  - cbn in Hc'. rewrite Hc'. cbn. by rewrite (right_id_L [] (++)).
  - cbn [load_loop] in Hc'.
    pose proof (load_line_contrib (size_t_incr n) line m w k) as H1.
    pose proof (load_line_dom (size_t_incr n) line m w k) as Hdom.
    destruct (load_line (size_t_incr n) line m w) as [m1 w1]. cbn [fst] in *.
    destruct (IH _ _ _ _ _ Hc') as [IHt IHp]. rewrite IHt, IHp.
    cbn [fmap list_fmap concat omap list_omap].
    destruct (m1 !! k) as [c1|] eqn:E1.
    + change (default Course_default (Some c1)) with c1.
      destruct (H1 c1 eq_refl) as [-> ->]. split.
      * destruct (line_title k line) as [t|]; [apply last_cons_default|done].
      * by rewrite (assoc_L (++)).
    + assert (m !! k = None) as ->.
      { destruct (m !! k) eqn:Ek; [|done].
        assert (is_Some (None : option Course)) as [? [=]].
        apply Hdom. left. by eexists. }
      assert (line_title k line = None ∧ line_prereqs k line = []) as [-> ->].
      { unfold line_title, line_prereqs, line_keys in *.
        destruct (line_record line) as [[[cid ttl] rest]|]; [|done].
        case_decide; [|done]. subst cid.
        assert (is_Some (None : option Course)) as [? [=]].
        apply Hdom. right. apply elem_of_cons. by left. }
      done.
Qed.

(** X15. When several kept lines of a file define the same course, its
    stored title is the title of the last of these lines whose title is not
    empty (empty when there is none), and its prerequisite sequence is made
    of the prerequisite identifiers of all these lines, in the order of the
    file, repeats included. *)
Theorem load_merges_lines (fs : FileSystem) (filename content : string)
    (c0 : gmap string Course) (w0 : list string) (k : string) (c : Course) :
  fs filename = Some content →
  ld_courses (loadCoursesFromFile fs filename c0 w0) !! k = Some c →
  title c = default "" (last (omap (line_title k) (getlines content)))
  ∧ prereqs c = concat (line_prereqs k <$> getlines content).
Proof.
  intros Hfs. unfold loadCoursesFromFile. rewrite Hfs.
  destruct (load_loop (getlines content) 0 ∅ []) as [m1 w1] eqn:E.
  cbn [ld_courses]. intros Hk.
  replace m1 with (load_loop (getlines content) 0 ∅ []).1 in Hk by (by rewrite E).
  apply load_loop_contrib in Hk. by rewrite lookup_empty in Hk.
Qed.

Lemma load_merges_lines_witness :
  let content := unlines ["a,First,x"; "a,,y,x"; "A,Second"; "b,,a"; "a,"] in
  default "" (last (omap (line_title "A") (getlines content))) = "Second"
  ∧ concat (line_prereqs "A" <$> getlines content) = ["X"; "Y"; "X"].
Proof.
  intros content.
  destruct (load_merges_lines (λ _, Some content) "f" content ∅ [] "A"
              (mkCourse "A" "Second" ["X"; "Y"; "X"])) as [Ht Hp];
    [reflexivity|reflexivity|].
  split; [by rewrite <- Ht|by rewrite <- Hp].
Defined.

(** ** What a session changes *)

Lemma main_loop_frame_len (fs : FileSystem) (n : nat) :
  ∀ (input : list string) (app : AppState) (cout cerr : list string),
    length input ≤ n →
    Forall not_load_choice input →
    run_app (main_loop fs input app cout cerr) = app
    ∧ run_cerr (main_loop fs input app cout cerr) = cerr.
Proof.
  induction n as [|n IH]; intros input app cout cerr Hlen Hin.
  { destruct input; [by rewrite main_loop_eq|simpl in Hlen; lia]. }
  rewrite main_loop_eq. destruct Hin as [|x rest Hx Hrest]; [done|].
  cbn [safeGetline]. simpl in Hlen. unfold main_round. rewrite trim_strip_cr.
  destruct (is_empty (trim x)); [apply IH; [lia|done]|].
  destruct (all_chars isdigit (trim x)) eqn:Hd; cbn [negb];
    [|apply IH; [lia|done]].
  specialize (Hx Hd). destruct (stoi (trim x)) as [choice|]; [|done].
  destruct (N.eqb_spec choice 1) as [->|_]; [done|].
  destruct (choice =? 2)%N.
  { destruct (menu_list app); [apply IH; [lia|done]|done]. }
  destruct (choice =? 3)%N.
  { destruct (dataLoaded app); [|apply IH; [lia|done]].
    destruct Hrest as [|y rest Hy Hrest]; [done|]. cbn [safeGetline].
    apply IH; [simpl in Hlen; lia|done]. }
  destruct (choice =? 9)%N; [done|]. apply IH; [lia|done].
Qed.

(** X16. Only option 1 changes the state: a session in which no line
    typed is the menu choice 1 ends with the catalog and the loaded flag it
    started with, and writes nothing to [std::cerr], whatever is listed or
    queried and however the session ends. *)
Theorem main_only_load_changes_state (fs : FileSystem) (input : list string)
    (app : AppState) (cout cerr : list string) :
  Forall not_load_choice input →
  run_app (main_loop fs input app cout cerr) = app
  ∧ run_cerr (main_loop fs input app cout cerr) = cerr.
Proof. by apply (main_loop_frame_len fs (length input)). Qed.

Lemma main_only_load_changes_state_witness :
  run_app (main_loop sample_fs ["2"; "3"; "csci200"; "x"; "9"]
             (mkApp sample_catalog true) [] [])
  = mkApp sample_catalog true.
Proof.
  apply (main_only_load_changes_state sample_fs ["2"; "3"; "csci200"; "x"; "9"]
           (mkApp sample_catalog true) [] []).
  repeat constructor; intros Hd; (discriminate Hd || (vm_compute; discriminate)).
Defined.
